(** * Language tabs: a model of [theme/language-tabs.js]

    The script drives the language tab groups of the rendered book: it marks
    one trigger and one panel of a group as active, keeps groups of one family
    (or, in sync mode, all groups) on the same value, moves between triggers
    with the arrow keys and owns the sync toggle in the menu bar.

    The page is modelled as the list of its [.language-tabs] containers in
    document order, each with its triggers and panels in document order; the
    containers are siblings, none sits inside another.  Every function of the
    script is a definition of the same name below. *)

From Stdlib Require Import ZArith NArith Ascii String.
From stdpp Require Import base tactics option list numbers strings.

(** ** The DOM the script reads and writes *)

(** A [.language-tabs-trigger] button: its [data-language-tabs-value]
    attribute (absent attributes read as [undefined]), whether its class list
    holds [is-active], and its [aria-selected] and [tabindex] attributes. *)
Record TabButton := mkTabButton {
  button_value : option string;
  button_is_active : bool;
  button_aria_selected : option string;
  button_tabindex : option string
}.

(** A [.language-tabs-panel]. *)
Record TabPanel := mkTabPanel {
  panel_value : option string;
  panel_is_active : bool
}.

(** A [.language-tabs] container with its [data-language-tabs-group]. *)
Record Container := mkContainer {
  group_identifier : option string;
  tab_buttons : list TabButton;
  tab_panels : list TabPanel
}.

(** The button [createLanguageTabsSyncToggle] builds.  Its class attribute
    is kept as the list of its tokens, which is what [className] sets and
    [classList.toggle] edits. *)
Record SyncToggleButton := mkSyncToggleButton {
  toggle_type : string;
  toggle_classList : list string;
  toggle_title : string;
  toggle_aria_pressed : option string;
  toggle_textContent : string
}.

(** Children of a menu bar button container: what the markup put there, or
    the sync toggle.  The toggle element itself lives in the script's variable
    [languageTabsSyncToggleButtonElement]; the menu bar holds a reference to
    it, so an update through the variable is what the page shows. *)
Inductive HeaderItem :=
  | MenuItem (label : string)
  | SyncToggleRef.

Inductive Exception := SyntaxError.

(** An element of the document as [activateTabValueInContainer] sees it when
    it is handed something else than one of the containers of the page: which
    triggers and panels of the page lie under the element (by the position of
    their container and their position in it), and the values of the
    [.language-tabs-trigger] elements under it that belong to no container of
    the page. *)
Record ElementScope := mkElementScope {
  scope_triggers : nat → nat → bool;
  scope_panels : nat → nat → bool;
  scope_foreign_values : list (option string)
}.

(** The part of the document a selector can look at. *)
Record Snapshot := mkSnapshot {
  snapshot_page : list Container;
  snapshot_right_buttons : option (list HeaderItem);
  snapshot_left_buttons : option (list HeaderItem);
  snapshot_active_element : option (nat * nat);
  snapshot_toggle : option SyncToggleButton
}.

(** What [document.querySelectorAll] does with a group selector whose text
    goes on after the first attribute test: given the attribute value of that
    test, the text after it and the document, it throws or returns the
    elements the whole selector matches, in document order.  Such text comes
    from the group identifier and can be any selector; its reading depends on
    the browser and on parts of the document that are not modelled, so it is
    a component of the state, and every property stated for all states holds
    whatever it is. *)
Definition SelectorEngine : Type :=
  string → string → Snapshot → Exception + list ElementScope.

(** The page, the two module variables of the script and the selector
    engine of the browser. *)
Record State := mkState {
  page : list Container;
  right_buttons : option (list HeaderItem);
  left_buttons : option (list HeaderItem);
  active_element : option (nat * nat);
  isGlobalLanguageTabSyncEnabled : bool;
  languageTabsSyncToggleButtonElement : option SyncToggleButton;
  selector_engine : SelectorEngine
}.

#[global] Instance TabButton_eq_dec : EqDecision TabButton.
Proof. solve_decision. Defined.
#[global] Instance TabPanel_eq_dec : EqDecision TabPanel.
Proof. solve_decision. Defined.
#[global] Instance Container_eq_dec : EqDecision Container.
Proof. solve_decision. Defined.
#[global] Instance HeaderItem_eq_dec : EqDecision HeaderItem.
Proof. solve_decision. Defined.

Definition set_page (p : list Container) (s : State) : State :=
  mkState p (right_buttons s) (left_buttons s) (active_element s)
          (isGlobalLanguageTabSyncEnabled s)
          (languageTabsSyncToggleButtonElement s) (selector_engine s).

Definition set_active_element (f : option (nat * nat)) (s : State) : State :=
  mkState (page s) (right_buttons s) (left_buttons s) f
          (isGlobalLanguageTabSyncEnabled s)
          (languageTabsSyncToggleButtonElement s) (selector_engine s).

Definition set_sync_enabled (b : bool) (s : State) : State :=
  mkState (page s) (right_buttons s) (left_buttons s) (active_element s) b
          (languageTabsSyncToggleButtonElement s) (selector_engine s).

Definition set_toggle_element (t : option SyncToggleButton) (s : State) : State :=
  mkState (page s) (right_buttons s) (left_buttons s) (active_element s)
          (isGlobalLanguageTabSyncEnabled s) t (selector_engine s).

Definition snapshot (s : State) : Snapshot :=
  mkSnapshot (page s) (right_buttons s) (left_buttons s) (active_element s)
             (languageTabsSyncToggleButtonElement s).

Definition set_right_buttons (r : option (list HeaderItem)) (s : State) : State :=
  mkState (page s) r (left_buttons s) (active_element s)
          (isGlobalLanguageTabSyncEnabled s)
          (languageTabsSyncToggleButtonElement s) (selector_engine s).

Definition set_left_buttons (l : option (list HeaderItem)) (s : State) : State :=
  mkState (page s) (right_buttons s) l (active_element s)
          (isGlobalLanguageTabSyncEnabled s)
          (languageTabsSyncToggleButtonElement s) (selector_engine s).

(** ** JavaScript values *)

(** [x === v] for an attribute read [x] and a string [v]. *)
Definition strict_equals (x : option string) (v : string) : bool :=
  bool_decide (x = Some v).

(** The string behind a truthy attribute read: [undefined] and the empty
    string are falsy. *)
Definition truthy (x : option string) : option string :=
  match x with
  | Some v => if bool_decide (v = EmptyString) then None else Some v
  | None => None
  end.

(** ** Activation inside one container *)

Definition getLanguageTabButtons (c : Container) : list TabButton := tab_buttons c.
Definition getLanguageTabPanels (c : Container) : list TabPanel := tab_panels c.

(** One turn of the loop over the triggers. *)
Definition activate_button (selectedTabValue : string) (b : TabButton) : TabButton :=
  let isActiveTab := strict_equals (button_value b) selectedTabValue in
  {| button_value := button_value b;
     button_is_active := isActiveTab;
     button_aria_selected := Some (if isActiveTab then "true" else "false");
     button_tabindex := Some (if isActiveTab then "0" else "-1") |}.

(** One turn of the loop over the panels. *)
Definition activate_panel (selectedTabValue : string) (p : TabPanel) : TabPanel :=
  {| panel_value := panel_value p;
     panel_is_active := strict_equals (panel_value p) selectedTabValue |}.

(** The container after both loops have run. *)
Definition activated (c : Container) (selectedTabValue : string) : Container :=
  {| group_identifier := group_identifier c;
     tab_buttons := activate_button selectedTabValue <$> getLanguageTabButtons c;
     tab_panels := activate_panel selectedTabValue <$> getLanguageTabPanels c |}.

(** Returns the boolean of the script and the container as it is left. *)
Definition activateTabValueInContainer
    (c : Container) (selectedTabValue : string) : bool * Container :=
  let tabButtons := getLanguageTabButtons c in
  let hasSelectedTabValue :=
    existsb (λ b, strict_equals (button_value b) selectedTabValue) tabButtons in
  if negb hasSelectedTabValue then (false, c)
  else (true, activated c selectedTabValue).

(** [activateTabValueInContainer] handed an arbitrary element of the
    document: [querySelectorAll] on the element finds the triggers and panels
    under it, the test looks at all those triggers, and the loops write to the
    ones that are on the page.  Returns the boolean and the page as it is
    left. *)
Definition activateTabValueInElement
    (e : ElementScope) (selectedTabValue : string) (p : list Container)
    : bool * list Container :=
  let tabButtonValues :=
    concat (imap (λ i c,
              omap id (imap (λ j b, if scope_triggers e i j
                                   then Some (button_value b) else None)
                            (getLanguageTabButtons c))) p)
    ++ scope_foreign_values e in
  let hasSelectedTabValue :=
    existsb (λ x, strict_equals x selectedTabValue) tabButtonValues in
  if negb hasSelectedTabValue then (false, p)
  else (true,
        imap (λ i c,
          {| group_identifier := group_identifier c;
             tab_buttons :=
               imap (λ j b, if scope_triggers e i j
                            then activate_button selectedTabValue b else b)
                    (getLanguageTabButtons c);
             tab_panels :=
               imap (λ j q, if scope_panels e i j
                            then activate_panel selectedTabValue q else q)
                    (getLanguageTabPanels c) |}) p).

Definition getLanguageTabContainerElements (s : State) : list Container := page s.

Definition activateTabValueGlobally (selectedTabValue : string) (s : State) : State :=
  set_page
    ((λ c, snd (activateTabValueInContainer c selectedTabValue))
       <$> getLanguageTabContainerElements s)
    s.

(** ** The selector engine on the group selector

    [activateTabValueForGroup] hands [document.querySelectorAll] the text
    [.language-tabs[data-language-tabs-group="ID"]] with the group identifier
    pasted in for ID as it is.  What the browser makes of that text is fixed by
    CSS Syntax Level 3 (preprocessing of the input, consuming a string token,
    consuming an escaped code point) and by the attribute selector grammar of
    Selectors; the definitions below follow those rules from the opening
    quotation mark on.  Strings are sequences of bytes holding UTF-8. *)

Definition NUL : ascii := "000"%char.
Definition TAB : ascii := "009"%char.
Definition LF : ascii := "010"%char.
Definition FF : ascii := "012"%char.
Definition CR : ascii := "013"%char.
Definition SPACE : ascii := "032"%char.
Definition QUOTATION_MARK : ascii := "034"%char.
Definition REVERSE_SOLIDUS : ascii := "092"%char.

(** UTF-8 bytes of a code point. *)
Definition utf8_encode (c : N) : string :=
  let byte n := String (ascii_of_N n) EmptyString in
  if (c <? 128)%N then byte c
  else if (c <? 2048)%N then
    byte (192 + c / 64)%N +:+ byte (128 + c mod 64)%N
  else if (c <? 65536)%N then
    byte (224 + c / 4096)%N +:+ byte (128 + (c / 64) mod 64)%N
    +:+ byte (128 + c mod 64)%N
  else
    byte (240 + c / 262144)%N +:+ byte (128 + (c / 4096) mod 64)%N
    +:+ byte (128 + (c / 64) mod 64)%N +:+ byte (128 + c mod 64)%N.

Definition REPLACEMENT_CHARACTER : string := utf8_encode 65533.

(** Preprocessing of the input stream: CR, FF and the pair CR LF become one
    LF, NUL becomes U+FFFD. *)
Fixpoint filter_code_points (s : string) : string :=
  match s with
  | EmptyString => EmptyString
  | String a rest =>
      if Ascii.eqb a CR then
        String LF
          match rest with
          | String b rest' =>
              if Ascii.eqb b LF then filter_code_points rest'
              else filter_code_points rest
          | EmptyString => EmptyString
          end
      else if Ascii.eqb a FF then String LF (filter_code_points rest)
      else if Ascii.eqb a NUL then REPLACEMENT_CHARACTER +:+ filter_code_points rest
      else String a (filter_code_points rest)
  end.

Definition is_newline (a : ascii) : bool := Ascii.eqb a LF.

Definition is_whitespace (a : ascii) : bool :=
  is_newline a || Ascii.eqb a TAB || Ascii.eqb a SPACE.

Definition hex_digit (a : ascii) : option N :=
  let n := N_of_ascii a in
  if (48 <=? n)%N && (n <=? 57)%N then Some (n - 48)%N
  else if (65 <=? n)%N && (n <=? 70)%N then Some (n - 55)%N
  else if (97 <=? n)%N && (n <=? 102)%N then Some (n - 87)%N
  else None.

(** The code point a hexadecimal escape stands for: zero, surrogates and
    numbers past U+10FFFF give U+FFFD. *)
Definition escaped_code_point (n : N) : string :=
  if (n =? 0)%N || ((55296 <=? n)%N && (n <=? 57343)%N) || (1114111 <? n)%N
  then REPLACEMENT_CHARACTER
  else utf8_encode n.

Inductive StringToken :=
  | GoodString (value rest : string)
  | BadString.

(** Where the tokenizer is inside the string: between code points, right
    after a reverse solidus, or inside a hexadecimal escape of which [digits]
    digits with value [n] have been read. *)
Inductive StringMode :=
  | Plain
  | Escape
  | Hex (digits : nat) (n : N).

(** Consume a string token that ends at a quotation mark; [value] is what has
    been read so far.  An unescaped newline gives a bad string; the end of the
    input ends the string. *)
Fixpoint consume_string_token (m : StringMode) (value input : string) : StringToken :=
  match input with
  | EmptyString =>
      match m with
      | Hex _ n => GoodString (value +:+ escaped_code_point n) EmptyString
      | _ => GoodString value EmptyString
      end
  | String a rest =>
      let plain value :=
        if Ascii.eqb a QUOTATION_MARK then GoodString value rest
        else if is_newline a then BadString
        else if Ascii.eqb a REVERSE_SOLIDUS then consume_string_token Escape value rest
        else consume_string_token Plain (value +:+ String a EmptyString) rest in
      match m with
      | Plain => plain value
      | Escape =>
          if is_newline a then consume_string_token Plain value rest
          else match hex_digit a with
               | Some d => consume_string_token (Hex 1 d) value rest
               | None => consume_string_token Plain (value +:+ String a EmptyString) rest
               end
      | Hex digits n =>
          match hex_digit a with
          | Some d =>
              if (digits <? 6)%nat then consume_string_token (Hex (S digits) (16 * n + d)%N) value rest
              else plain (value +:+ escaped_code_point n)
          | None =>
              if is_whitespace a then
                consume_string_token Plain (value +:+ escaped_code_point n) rest
              else plain (value +:+ escaped_code_point n)
          end
      end
  end.

(** The selector text after the opening quotation mark. *)
Definition group_selector_tail (groupIdentifier : string) : string :=
  groupIdentifier +:+ String QUOTATION_MARK "]".

(** How the group selector reads: it asks for the containers whose group
    attribute is [value] and nothing else; or it is malformed, and
    [querySelectorAll] throws; or its text goes on after the attribute value
    [value] with [rest], and what it selects is up to the selector engine. *)
Inductive SelectorReading :=
  | SelectsFamily (value : string)
  | Malformed
  | Continues (value rest : string).

(** The code points that can come after the attribute value inside the
    brackets: white space, the closing bracket, and the first code point of a
    comment, of the modifiers [i] and [s] and of an escape.  Any other code
    point there makes the selector malformed. *)
Definition may_follow_value (a : ascii) : bool :=
  is_whitespace a || Ascii.eqb a "]" || Ascii.eqb a "/" ||
  Ascii.eqb a "i" || Ascii.eqb a "I" || Ascii.eqb a "s" || Ascii.eqb a "S" ||
  Ascii.eqb a REVERSE_SOLIDUS.

(** The reading of the group selector built from an identifier.  A bad
    string makes it malformed.  It selects one family when the string token is
    followed by the closing bracket and nothing else, or runs to the end of the
    input, where the open string and block are closed. *)
Definition group_selector_value (groupIdentifier : string) : SelectorReading :=
  match consume_string_token Plain EmptyString
          (filter_code_points (group_selector_tail groupIdentifier)) with
  | BadString => Malformed
  | GoodString value rest =>
      match rest with
      | EmptyString => SelectsFamily value
      | String a _ =>
          if bool_decide (rest = "]") then SelectsFamily value
          else if may_follow_value a then Continues value rest
          else Malformed
      end
  end.

(** Does the container match [.language-tabs[data-language-tabs-group="value"]]? *)
Definition matches_group (value : string) (c : Container) : bool :=
  strict_equals (group_identifier c) value.

(** ** Scripts: state passing with exceptions

    A script runs on a state and either returns a value or throws; both leave
    a state behind, since what was written to the page before a throw stays
    written. *)

Inductive Completion (A : Type) :=
  | Returned (a : A) (s : State)
  | Threw (e : Exception) (s : State).
Arguments Returned {A} a s.
Arguments Threw {A} e s.

Definition Script (A : Type) : Type := State → Completion A.

#[global] Instance Script_ret : MRet Script := λ A a s, Returned a s.
#[global] Instance Script_bind : MBind Script := λ A B f m s,
  match m s with
  | Returned a s' => f a s'
  | Threw e s' => Threw e s'
  end.

Definition throw {A} (e : Exception) : Script A := λ s, Threw e s.
Definition modify (f : State → State) : Script unit := λ s, Returned tt (f s).
Definition gets {A} (f : State → A) : Script A := λ s, Returned (f s) s.

Definition final_state {A} (c : Completion A) : State :=
  match c with
  | Returned _ s => s
  | Threw _ s => s
  end.

Definition has_thrown {A} (c : Completion A) : bool :=
  match c with
  | Returned _ _ => false
  | Threw _ _ => true
  end.

(** ** Activation across containers *)

Definition activateTabValueForGroup
    (groupIdentifier selectedTabValue : string) : Script unit :=
  match group_selector_value groupIdentifier with
  | Malformed => throw SyntaxError
  | SelectsFamily value =>
      modify (λ s,
        set_page
          ((λ c, if matches_group value c
                 then snd (activateTabValueInContainer c selectedTabValue)
                 else c)
             <$> page s)
          s)
  | Continues value rest => λ s,
      match selector_engine s value rest (snapshot s) with
      | inl e => Threw e s
      | inr elements =>
          Returned tt
            (set_page
               (foldl (λ p e, snd (activateTabValueInElement e selectedTabValue p))
                      (page s) elements)
               s)
      end
  end.

(** The value of the first active trigger in page order; [null] when there is
    none, and also when that trigger carries no value. *)
Fixpoint first_active_value (containers : list Container) : option string :=
  match containers with
  | [] => None
  | c :: rest =>
      match find button_is_active (getLanguageTabButtons c) with
      | Some tabButton => button_value tabButton
      | None => first_active_value rest
      end
  end.

Definition getFirstActiveTabValue (s : State) : option string :=
  first_active_value (getLanguageTabContainerElements s).

(** ** The sync toggle *)

(** [classList.toggle(token, force)]: with [force] the token is added unless
    it is there, without it the token is removed. *)
Definition classList_toggle (token : string) (force : bool) (l : list string)
    : list string :=
  if force
  then if bool_decide (token ∈ l) then l else l ++ [token]
  else filter (λ x, x ≠ token) l.

Definition updateLanguageTabsSyncToggleButtonState (s : State) : State :=
  match languageTabsSyncToggleButtonElement s with
  | None => s
  | Some t =>
      let enabled := isGlobalLanguageTabSyncEnabled s in
      set_toggle_element
        (Some {| toggle_type := toggle_type t;
                 toggle_classList := classList_toggle "is-active" enabled (toggle_classList t);
                 toggle_title := toggle_title t;
                 toggle_aria_pressed := Some (if enabled then "true" else "false");
                 toggle_textContent :=
                   if enabled then "Sync Tabs: On" else "Sync Tabs: Off" |})
        s
  end.

(** The click listener of the sync toggle. *)
Definition syncToggleClick (s : State) : State :=
  let s := set_sync_enabled (negb (isGlobalLanguageTabSyncEnabled s)) s in
  let s := updateLanguageTabsSyncToggleButtonState s in
  if negb (isGlobalLanguageTabSyncEnabled s) then s
  else
    match truthy (getFirstActiveTabValue s) with
    | None => s
    | Some firstActiveTabValue => activateTabValueGlobally firstActiveTabValue s
    end.

(** [document.createElement("button")] with the three properties the script
    sets on it. *)
Definition new_sync_toggle : SyncToggleButton :=
  {| toggle_type := "button";
     toggle_classList := ["language-tabs-header-toggle"];
     toggle_title := "Sync selected language across all tab groups";
     toggle_aria_pressed := None;
     toggle_textContent := EmptyString |}.

Definition createLanguageTabsSyncToggle (s : State) : State :=
  let languageTabsContainerElements := getLanguageTabContainerElements s in
  if (length languageTabsContainerElements <? 2)%nat then s
  else
    match right_buttons s, left_buttons s with
    | Some children, _ =>
        let s := set_toggle_element (Some new_sync_toggle) s in
        let s := updateLanguageTabsSyncToggleButtonState s in
        set_right_buttons (Some (SyncToggleRef :: children)) s
    | None, Some children =>
        let s := set_toggle_element (Some new_sync_toggle) s in
        let s := updateLanguageTabsSyncToggleButtonState s in
        set_left_buttons (Some (SyncToggleRef :: children)) s
    | None, None => s
    end.

(** ** Defaults, clicks and keys *)

(** [container] is the position of the container element on the page. *)
Definition activateDefaultTab (container : nat) : Script unit := λ s,
  match page s !! container with
  | None => Returned tt s
  | Some languageTabsContainerElement =>
      match truthy (group_identifier languageTabsContainerElement) with
      | None => Returned tt s
      | Some groupIdentifier =>
          let tabButtons := getLanguageTabButtons languageTabsContainerElement in
          match tabButtons with
          | [] => Returned tt s
          | first :: _ =>
              let defaultTabButton :=
                default first (find button_is_active tabButtons) in
              match truthy (button_value defaultTabButton) with
              | Some defaultTabValue =>
                  activateTabValueForGroup groupIdentifier defaultTabValue s
              | None => Returned tt s
              end
          end
      end
  end.

(** What an event can have as its [currentTarget]: the trigger at a position
    of a container of the page, an element that sits in no [.language-tabs]
    container, or something that is no HTML element. *)
Inductive EventTarget :=
  | TriggerAt (container trigger : nat)
  | DetachedElement (value : option string)
  | NotAnElement.

(** The target as the handlers see it: its [data-language-tabs-value], the
    container [closest(".language-tabs")] finds with its position on the page,
    and the target's position among the triggers of that container. *)
Record Element := mkElement {
  element_value : option string;
  element_closest : option (nat * Container);
  element_position : nat
}.

Definition currentTarget (s : State) (target : EventTarget) : option Element :=
  match target with
  | TriggerAt container trigger =>
      c ← page s !! container;
      b ← getLanguageTabButtons c !! trigger;
      Some (mkElement (button_value b) (Some (container, c)) trigger)
  | DetachedElement value => Some (mkElement value None 0)
  | NotAnElement => None
  end.

Definition handleTabClick (target : EventTarget) : Script unit := λ s,
  match currentTarget s target with
  | None => Returned tt s
  | Some tabButton =>
      let languageTabsContainerElement := snd <$> element_closest tabButton in
      let groupIdentifier := languageTabsContainerElement ≫= group_identifier in
      let selectedTabValue := element_value tabButton in
      match truthy groupIdentifier, truthy selectedTabValue with
      | Some groupIdentifier, Some selectedTabValue =>
          if isGlobalLanguageTabSyncEnabled s
          then Returned tt (activateTabValueGlobally selectedTabValue s)
          else activateTabValueForGroup groupIdentifier selectedTabValue s
      | _, _ => Returned tt s
      end
  end.

(** [tabButtons.indexOf(tabButton)] for the trigger at [position]. *)
Definition indexOf (tabButtons : list TabButton) (position : nat) : Z :=
  match tabButtons !! position with
  | Some _ => Z.of_nat position
  | None => (-1)%Z
  end.

(** The index the key moves to, [-1] for a key that moves nowhere; [%] is the
    remainder of JavaScript, which takes the sign of the dividend. *)
Definition next_index (key : string) (currentTabButtonIndex count : Z) : Z :=
  if bool_decide (key = "ArrowRight")
  then Z.rem (currentTabButtonIndex + 1) count
  else if bool_decide (key = "ArrowLeft")
  then Z.rem (currentTabButtonIndex - 1 + count) count
  else (-1)%Z.

(** [click()] on a trigger dispatches a click event to it, which runs its
    click listener, [handleTabClick].  An exception the listener throws is
    reported by the browser and not passed on: [click()] returns in the state
    the listener has left. *)
Definition dispatch_click (target : EventTarget) : Script unit := λ s,
  Returned tt (final_state (handleTabClick target s)).

(** [focus()] and [click()] on the trigger at [trigger] of [container]. *)
Definition focus_and_click (container trigger : nat) : Script unit :=
  modify (set_active_element (Some (container, trigger)));;
  dispatch_click (TriggerAt container trigger).

(** Returns whether the handler called [preventDefault] on the event. *)
Definition handleTabKeyboardNavigation
    (target : EventTarget) (key : string) : Script bool := λ s,
  match currentTarget s target with
  | None => Returned false s
  | Some tabButton =>
      match element_closest tabButton with
      | None => Returned false s
      | Some (container, languageTabsContainerElement) =>
          let tabButtons := getLanguageTabButtons languageTabsContainerElement in
          let currentTabButtonIndex := indexOf tabButtons (element_position tabButton) in
          if (currentTabButtonIndex =? -1)%Z then Returned false s
          else
            let nextTabButtonIndex :=
              next_index key currentTabButtonIndex (Z.of_nat (length tabButtons)) in
            if (nextTabButtonIndex =? -1)%Z then Returned false s
            else
              match tabButtons !! Z.to_nat nextTabButtonIndex with
              | None => Returned true s
              | Some _ =>
                  (focus_and_click container (Z.to_nat nextTabButtonIndex);;
                   mret true) s
              end
      end
  end.

(** ** Start-up *)

Fixpoint for_each {A} (l : list A) (body : A → Script unit) : Script unit :=
  match l with
  | [] => mret tt
  | x :: rest => body x;; for_each rest body
  end.

(** The listeners the loop registers are [handleTabClick] and
    [handleTabKeyboardNavigation]; registering them writes nothing to the
    page. *)
Definition initializeLanguageTabs : Script unit := λ s,
  let languageTabsContainerElements := seq 0 (length (getLanguageTabContainerElements s)) in
  (for_each languageTabsContainerElements activateDefaultTab;;
   modify createLanguageTabsSyncToggle) s.

(** What the markup of a page provides: the containers and the two button
    containers of the menu bar, each of which may be missing. *)
Record Markup := mkMarkup {
  markup_containers : list Container;
  markup_right_buttons : option (list string);
  markup_left_buttons : option (list string);
  markup_selector_engine : SelectorEngine
}.

Definition menu_items (labels : option (list string)) : option (list HeaderItem) :=
  match labels with
  | Some labels => Some (MenuItem <$> labels)
  | None => None
  end.

(** The state when the script is loaded. *)
Definition load (m : Markup) : State :=
  {| page := markup_containers m;
     right_buttons := menu_items (markup_right_buttons m);
     left_buttons := menu_items (markup_left_buttons m);
     active_element := None;
     isGlobalLanguageTabSyncEnabled := false;
     languageTabsSyncToggleButtonElement := None;
     selector_engine := markup_selector_engine m |}.

(** * Specification vocabulary *)

(** ** Predicates on containers, pages and states *)

(** [v] is the value of one of the triggers of [c]. *)
Definition value_present (v : string) (c : Container) : Prop :=
  ∃ b, b ∈ tab_buttons c ∧ button_value b = Some v.

(** The state of a trigger that is not the active one. *)
Definition button_at_rest (b : TabButton) : Prop :=
  button_is_active b = false ∧
  button_aria_selected b = Some "false" ∧
  button_tabindex b = Some "-1".

(** Exactly one trigger of [c] is active; it carries [v], is selected and is
    the tab stop, and every other trigger is at rest. *)
Definition sole_active_button (v : string) (c : Container) : Prop :=
  ∃ before b after,
    tab_buttons c = before ++ b :: after ∧
    button_value b = Some v ∧
    button_is_active b = true ∧
    button_aria_selected b = Some "true" ∧
    button_tabindex b = Some "0" ∧
    Forall button_at_rest (before ++ after).

(** Exactly one panel of [c] is active, and it carries [v]. *)
Definition sole_active_panel (v : string) (c : Container) : Prop :=
  ∃ before p after,
    tab_panels c = before ++ p :: after ∧
    panel_value p = Some v ∧
    panel_is_active p = true ∧
    Forall (λ p', panel_is_active p' = false) (before ++ after).

(** The values of the triggers of [c] that carry one are pairwise distinct. *)
Definition unique_button_values (c : Container) : Prop :=
  NoDup (omap button_value (tab_buttons c)).

Definition unique_panel_values (c : Container) : Prop :=
  NoDup (omap panel_value (tab_panels c)).

(** The invariant of a tab group: at most one trigger and at most one panel
    are active, and an active trigger and an active panel carry the same
    value. *)
Definition group_invariant (c : Container) : Prop :=
  length (filter (λ b, button_is_active b = true) (tab_buttons c)) ≤ 1 ∧
  length (filter (λ p, panel_is_active p = true) (tab_panels c)) ≤ 1 ∧
  ∀ b p, b ∈ tab_buttons c → p ∈ tab_panels c →
         button_is_active b = true → panel_is_active p = true →
         button_value b = panel_value p.

(** Tab values are unique within the group: no two triggers share a value and
    no two panels share a value. *)
Definition unique_tab_values (c : Container) : Prop :=
  unique_button_values c ∧ unique_panel_values c.

(** The operations of the component. *)
Inductive Operation :=
  | Activate (container : nat) (value : string)
  | ActivateEverywhere (value : string)
  | ActivateForGroupFamily (groupIdentifier value : string)
  | Initialize
  | Click (target : EventTarget)
  | KeyDown (target : EventTarget) (key : string)
  | ToggleSync.

(** The state an operation leaves, whether it returned or threw. *)
Definition run (op : Operation) (s : State) : State :=
  match op with
  | Activate container value =>
      set_page
        (alter (λ c, snd (activateTabValueInContainer c value)) container (page s)) s
  | ActivateEverywhere value => activateTabValueGlobally value s
  | ActivateForGroupFamily groupIdentifier value =>
      final_state (activateTabValueForGroup groupIdentifier value s)
  | Initialize => final_state (initializeLanguageTabs s)
  | Click target => final_state (handleTabClick target s)
  | KeyDown target key => final_state (handleTabKeyboardNavigation target key s)
  | ToggleSync => syncToggleClick s
  end.

(** A container shows [v]: each trigger carrying [v] is active, selected and
    the tab stop, every other trigger is at rest, and a panel is active exactly
    when it carries [v]. *)
Definition showing (v : string) (c : Container) : Prop :=
  Forall (λ b, if decide (button_value b = Some v)
               then button_is_active b = true ∧
                    button_aria_selected b = Some "true" ∧
                    button_tabindex b = Some "0"
               else button_at_rest b) (tab_buttons c) ∧
  Forall (λ p, panel_is_active p = true ↔ panel_value p = Some v) (tab_panels c).

(** Two containers differ at most in the flags and attributes activation
    writes. *)
Definition same_markup (c c' : Container) : Prop :=
  group_identifier c' = group_identifier c ∧
  button_value <$> tab_buttons c' = button_value <$> tab_buttons c ∧
  panel_value <$> tab_panels c' = panel_value <$> tab_panels c.


(** The state a script leaves, whether it returns or throws, is related by
    [R] to the state it started in. *)
Definition preserves {A} (R : State → State → Prop) (m : Script A) : Prop :=
  ∀ s, R s (final_state (m s)).

(** What a pass over the containers does to each of them: nothing, or what
    [activateTabValueInContainer] does for some value. *)
Definition activation_step (f : Container → Container) : Prop :=
  ∀ c, f c = c ∨ ∃ v, f c = snd (activateTabValueInContainer c v).


(** Everything but the flags and attributes of triggers and panels and the
    focus is as before: the menu bar, the two variables of the script and the
    group identifiers of the page. *)
Definition same_frame (s s' : State) : Prop :=
  right_buttons s' = right_buttons s ∧
  left_buttons s' = left_buttons s ∧
  isGlobalLanguageTabSyncEnabled s' = isGlobalLanguageTabSyncEnabled s ∧
  languageTabsSyncToggleButtonElement s' = languageTabsSyncToggleButtonElement s ∧
  group_identifier <$> page s' = group_identifier <$> page s.

(** Identifiers the selector engine reads as they are written: no quotation
    mark, no reverse solidus, no line break and no NUL. *)
Definition plain_character (a : ascii) : bool :=
  negb (Ascii.eqb a QUOTATION_MARK || Ascii.eqb a REVERSE_SOLIDUS ||
        Ascii.eqb a LF || Ascii.eqb a CR || Ascii.eqb a FF || Ascii.eqb a NUL).

Fixpoint plain_identifier (groupIdentifier : string) : bool :=
  match groupIdentifier with
  | EmptyString => true
  | String a rest => plain_character a && plain_identifier rest
  end.

(** Every group identifier of the page is plain. *)
Definition plain_page (p : list Container) : Prop :=
  Forall (λ c, ∀ groupIdentifier,
            group_identifier c = Some groupIdentifier →
            plain_identifier groupIdentifier = true) p.

(** The children of the button containers of the menu bar. *)
Definition header_items (s : State) : list HeaderItem :=
  default [] (right_buttons s) ++ default [] (left_buttons s).

(** The menu bar of the markup has a button container. *)
Definition has_button_container (m : Markup) : Prop :=
  is_Some (markup_right_buttons m) ∨ is_Some (markup_left_buttons m).

Definition sync_label (enabled : bool) : string :=
  if enabled then "Sync Tabs: On" else "Sync Tabs: Off".

(** The sync toggle is in the menu bar and its text matches the mode. *)
Definition toggle_in_step (s : State) : Prop :=
  SyncToggleRef ∈ header_items s ∧
  ∃ t, languageTabsSyncToggleButtonElement s = Some t ∧
       toggle_textContent t = sync_label (isGlobalLanguageTabSyncEnabled s).

(** The state after a sequence of operations. *)
Definition run_all (ops : list Operation) (s : State) : State :=
  foldl (λ s op, run op s) s ops.

(** A container after a script: written by activation, which leaves the
    invariant behind when the tab values are unique, or left as it was. *)
Definition written_or_left (c c' : Container) : Prop :=
  same_markup c c' ∧ (c' = c ∨ (unique_tab_values c → group_invariant c')).

Definition writes_establish (s s' : State) : Prop :=
  Forall2 written_or_left (page s) (page s').

(** The triggers of the page in page order. *)
Definition page_buttons (s : State) : list TabButton :=
  concat (tab_buttons <$> page s).

Definition button_inactive (b : TabButton) : Prop := button_is_active b = false.

(** Groups without a group identifier are where they were, as they were. *)
Definition anonymous_untouched (s s' : State) : Prop :=
  ∀ i c, page s !! i = Some c → group_identifier c = None → page s' !! i = Some c.

(** While sync mode is off, on a page of plain identifiers: the groups without
    an identifier are as they were, sync mode is off and the identifiers are
    plain afterwards. *)
Definition anonymous_inert (s s' : State) : Prop :=
  isGlobalLanguageTabSyncEnabled s = false → plain_page (page s) →
  anonymous_untouched s s' ∧
  isGlobalLanguageTabSyncEnabled s' = false ∧ plain_page (page s').

(** What activating [v] in the family [groupIdentifier] comes to: every
    group of the family with a trigger for [v] shows [v], every other group is
    as it was, and so are the menu bar, the sync mode and the focus. *)
Definition family_activated (groupIdentifier v : string) (s s' : State) : Prop :=
  same_frame s s' ∧
  active_element s' = active_element s ∧
  ∀ i G, page s !! i = Some G →
    ∃ G', page s' !! i = Some G' ∧
          (group_identifier G = Some groupIdentifier → value_present v G →
           showing v G') ∧
          (group_identifier G ≠ Some groupIdentifier ∨ ¬ value_present v G →
           G' = G).

(** The operation reaches the groups through the group selector only:
    start-up, activation of a family, and clicks and keys while sync mode is
    off. *)
Definition selects_by_family (op : Operation) (s : State) : Prop :=
  match op with
  | Initialize | ActivateForGroupFamily _ _ => True
  | Click _ | KeyDown _ _ => isGlobalLanguageTabSyncEnabled s = false
  | Activate _ _ | ActivateEverywhere _ | ToggleSync => False
  end.

(** The container shows one of the values its triggers carry. *)
Definition has_active_tab (c : Container) : Prop :=
  ∃ v, value_present v c ∧ showing v c.

(** A group start-up gives a default to: it has a non-empty identifier and at
    least one trigger, and each of its triggers carries a non-empty value. *)
Definition takes_default (c : Container) : Prop :=
  (∃ groupIdentifier,
     group_identifier c = Some groupIdentifier ∧ groupIdentifier ≠ EmptyString) ∧
  tab_buttons c ≠ [] ∧
  Forall (λ b, ∃ v, button_value b = Some v ∧ v ≠ EmptyString) (tab_buttons c).

(** Groups keep their markup, and a group that shows one of its values goes
    on showing one of its values. *)
Definition keeps_active_tab (s s' : State) : Prop :=
  Forall2 (λ c c', same_markup c c' ∧ (has_active_tab c → has_active_tab c'))
          (page s) (page s').

(** Identifiers that certainly make the group selector malformed: the first
    code point that is not read as it is written is a line break, which makes
    the string a bad string, or a quotation mark that ends the identifier or
    is followed by a code point that cannot come after an attribute value. *)
Fixpoint breaks_selector (groupIdentifier : string) : bool :=
  match groupIdentifier with
  | EmptyString => false
  | String a rest =>
      if Ascii.eqb a QUOTATION_MARK then
        match rest with
        | EmptyString => true
        | String b _ => negb (may_follow_value b || Ascii.eqb b CR || Ascii.eqb b FF)
        end
      else if Ascii.eqb a LF || Ascii.eqb a CR || Ascii.eqb a FF then true
      else if Ascii.eqb a REVERSE_SOLIDUS || Ascii.eqb a NUL then false
      else breaks_selector rest
  end.

(** Two groups of one family with triggers for the same values. *)
Definition same_tabs (c1 c2 : Container) : Prop :=
  group_identifier c1 = group_identifier c2 ∧
  ∀ v, value_present v c1 ↔ value_present v c2.

(** Two groups show the same value, one that their triggers carry. *)
Definition show_alike (c1 c2 : Container) : Prop :=
  ∃ v, value_present v c1 ∧ showing v c1 ∧ showing v c2.

(** What the loop of [activateTabValueForGroup] does to a container when the
    selector asks for the family [value]. *)
Definition family_step (value w : string) (c : Container) : Container :=
  if matches_group value c then snd (activateTabValueInContainer c w) else c.

(** A click on the trigger at [i] of the group at [container] selects the
    value [v]: the trigger carries [v], its group has an identifier, neither
    is empty, so that the click handler passes its guard, and sync mode is on
    or the identifier is plain. *)
Definition click_selects (s : State) (container i : nat) (v : string) : Prop :=
  ∃ c b groupIdentifier,
    page s !! container = Some c ∧
    tab_buttons c !! i = Some b ∧
    button_value b = Some v ∧ v ≠ EmptyString ∧
    group_identifier c = Some groupIdentifier ∧ groupIdentifier ≠ EmptyString ∧
    (isGlobalLanguageTabSyncEnabled s = true ∨
     plain_identifier groupIdentifier = true).

(** The trigger at [i] of the group at [container] is the active tab, with
    value [v]: the trigger is active and the group shows [v]. *)
Definition is_active_tab (v : string) (container i : nat) (s : State) : Prop :=
  ∃ c b,
    page s !! container = Some c ∧ showing v c ∧
    tab_buttons c !! i = Some b ∧
    button_value b = Some v ∧ button_is_active b = true.

(** The identifier the operation is called with, when it is called with
    one, is plain. *)
Definition plain_operation (op : Operation) : Prop :=
  match op with
  | ActivateForGroupFamily groupIdentifier _ =>
      plain_identifier groupIdentifier = true
  | _ => True
  end.

(** The relation [R] restricted to pages of plain identifiers: from such a
    page the script leaves a state related by [R], on a page of plain
    identifiers again. *)
Definition on_plain (R : State → State → Prop) (s s' : State) : Prop :=
  plain_page (page s) → R s s' ∧ plain_page (page s').

(** Every group keeps its markup. *)
Definition keeps_markup (s s' : State) : Prop :=
  Forall2 same_markup (page s) (page s').

(** ** Sample pages *)

(** A selector engine that takes no selector text beyond the first attribute
    test.  The sample pages use it; none of their identifiers makes the
    selector go on, so the engine is never asked. *)
Definition strict_engine : SelectorEngine := λ _ _ _, inl SyntaxError.

(** A trigger and a panel as the markup has them, without ARIA attributes. *)
Definition trigger (value : string) (active : bool) : TabButton :=
  mkTabButton (Some value) active None None.

Definition panel (value : string) (active : bool) : TabPanel :=
  mkTabPanel (Some value) active.

(** A group of one trigger and its panel. *)
Definition single_rust_group : Container :=
  {| group_identifier := Some "lang";
     tab_buttons := [trigger "rust" false];
     tab_panels := [panel "rust" false] |}.

(** A trigger whose panel is missing: the markup the script tolerates. *)
Definition orphan_trigger_group : Container :=
  {| group_identifier := Some "lang";
     tab_buttons := [trigger "rust" false];
     tab_panels := [] |}.

(** Three languages, Rust active, in the family [lang]. *)
Definition rust_group : Container :=
  {| group_identifier := Some "lang";
     tab_buttons := [trigger "rust" true; trigger "python" false; trigger "typescript" false];
     tab_panels := [panel "rust" true; panel "python" false; panel "typescript" false] |}.

(** Two languages, Python active, without a group identifier. *)
Definition anonymous_python_group : Container :=
  {| group_identifier := None;
     tab_buttons := [trigger "rust" false; trigger "python" true];
     tab_panels := [panel "rust" false; panel "python" true] |}.

(** A choice that has nothing to do with languages. *)
Definition other_group : Container :=
  {| group_identifier := Some "other";
     tab_buttons := [trigger "x" true; trigger "y" false];
     tab_panels := [panel "x" true; panel "y" false] |}.



(** A page as the script finds it, with a menu bar. *)
Definition two_group_markup : Markup :=
  {| markup_containers := [rust_group; anonymous_python_group];
     markup_right_buttons := Some ["print"];
     markup_left_buttons := Some ["sidebar"];
     markup_selector_engine := strict_engine |}.

Definition two_family_state : State :=
  load {| markup_containers := [rust_group; other_group];
          markup_right_buttons := Some ["print"];
          markup_left_buttons := None;
          markup_selector_engine := strict_engine |}.

(** Two groups on a page whose menu bar has no button container. *)
Definition bare_markup : Markup :=
  {| markup_containers := [rust_group; other_group];
     markup_right_buttons := None;
     markup_left_buttons := None;
     markup_selector_engine := strict_engine |}.

(** A group whose identifier is a single quotation mark. *)
Definition quoted_group : Container :=
  {| group_identifier := Some (String QUOTATION_MARK EmptyString);
     tab_buttons := [trigger "x" true; trigger "y" false];
     tab_panels := [panel "x" true; panel "y" false] |}.

(** A group in the family [lang] that the markup left without an active tab. *)
Definition unset_group : Container :=
  {| group_identifier := Some "lang";
     tab_buttons := [trigger "rust" false; trigger "python" false];
     tab_panels := [panel "rust" false; panel "python" false] |}.

Definition quoted_markup : Markup :=
  {| markup_containers := [quoted_group; unset_group];
     markup_right_buttons := Some ["print"];
     markup_left_buttons := None;
     markup_selector_engine := strict_engine |}.

(** A group whose identifier is a reverse solidus followed by [z], and a
    group of the family [z]. *)
Definition escaped_identifier : string := String REVERSE_SOLIDUS "z".

Definition escaped_group : Container :=
  {| group_identifier := Some escaped_identifier;
     tab_buttons := [trigger "x" true; trigger "y" false];
     tab_panels := [panel "x" true; panel "y" false] |}.

Definition z_group : Container :=
  {| group_identifier := Some "z";
     tab_buttons := [trigger "x" true; trigger "y" false];
     tab_panels := [panel "x" true; panel "y" false] |}.

Definition escaped_state : State :=
  load {| markup_containers := [escaped_group; z_group];
          markup_right_buttons := None;
          markup_left_buttons := None;
          markup_selector_engine := strict_engine |}.

(** An identifier that closes the attribute test and goes on with two more
    selectors: with it the group selector reads
    [.language-tabs[data-language-tabs-group="a"], .language-tabs-list, [x=""]]. *)
Definition injected_identifier : string :=
  "a" +:+ String QUOTATION_MARK "], .language-tabs-list, [x="
      +:+ String QUOTATION_MARK EmptyString.

Definition injected_group : Container :=
  {| group_identifier := Some injected_identifier;
     tab_buttons := [trigger "x" true; trigger "y" false];
     tab_panels := [panel "x" true; panel "y" false] |}.

(** The selector engine on a page where the triggers of each group, and not
    its panels, sit in a [.language-tabs-list] element of the group: the
    selector above matches the groups of the family it names and every one of
    these elements, in document order. *)
Definition list_engine : SelectorEngine := λ value rest document,
  if bool_decide (rest = "], .language-tabs-list, [x="
                         +:+ String QUOTATION_MARK (String QUOTATION_MARK "]"))
  then inr (concat (imap (λ i c,
              (if matches_group value c
               then [mkElementScope (λ i' _, i' =? i) (λ i' _, i' =? i) []]
               else [])
              ++ [mkElementScope (λ i' _, i' =? i) (λ _ _, false) []])
              (snapshot_page document)))
  else inl SyntaxError.

Definition injected_markup : Markup :=
  {| markup_containers := [injected_group];
     markup_right_buttons := None;
     markup_left_buttons := None;
     markup_selector_engine := list_engine |}.

(** A second group of the family [lang], with Python active. *)
Definition lang_python_group : Container :=
  {| group_identifier := Some "lang";
     tab_buttons := [trigger "rust" false; trigger "python" true];
     tab_panels := [panel "rust" false; panel "python" true] |}.

(** The sample page after start-up and a click on the sync toggle. *)
Definition synced_state : State :=
  syncToggleClick (final_state (initializeLanguageTabs (load two_group_markup))).

(** * Properties *)

(** ** Activation inside one container *)

Lemma strict_equals_true x v : strict_equals x v = true ↔ x = Some v.
Proof. unfold strict_equals. by rewrite bool_decide_eq_true. Qed.

Lemma strict_equals_false x v : strict_equals x v = false ↔ x ≠ Some v.
Proof. unfold strict_equals. by rewrite bool_decide_eq_false. Qed.

Lemma hasSelectedTabValue_present c v :
  existsb (λ b, strict_equals (button_value b) v) (getLanguageTabButtons c) = true
  ↔ value_present v c.
Proof.
  unfold value_present, getLanguageTabButtons. rewrite existsb_exists.
  split; intros (b & Hb & Hv); exists b.
  - by rewrite list_elem_of_In, <- strict_equals_true.
  - by rewrite <- list_elem_of_In, strict_equals_true.
Qed.

Lemma activate_present c v :
  value_present v c → activateTabValueInContainer c v = (true, activated c v).
Proof.
  intros H. apply hasSelectedTabValue_present in H.
  unfold activateTabValueInContainer. by rewrite H.
Qed.

Lemma activate_not_present c v :
  ¬ value_present v c → activateTabValueInContainer c v = (false, c).
Proof.
  intros H. unfold activateTabValueInContainer.
  destruct (existsb _ _) eqn:E; [|done].
  by apply hasSelectedTabValue_present in E.
Qed.

Lemma value_present_dec v c : value_present v c ∨ ¬ value_present v c.
Proof.
  destruct (existsb (λ b, strict_equals (button_value b) v)
              (getLanguageTabButtons c)) eqn:E.
  - left. by apply hasSelectedTabValue_present.
  - right. intros H. apply hasSelectedTabValue_present in H. congruence.
Qed.

Lemma activate_button_other v b :
  button_value b ≠ Some v → button_at_rest (activate_button v b).
Proof.
  intros H. apply strict_equals_false in H.
  unfold button_at_rest, activate_button. simpl. by rewrite H.
Qed.

Lemma activate_button_twice v b :
  activate_button v (activate_button v b) = activate_button v b.
Proof. done. Qed.

Lemma activate_panel_twice v p :
  activate_panel v (activate_panel v p) = activate_panel v p.
Proof. done. Qed.

Lemma activated_twice c v : activated (activated c v) v = activated c v.
Proof.
  unfold activated, getLanguageTabButtons, getLanguageTabPanels. simpl.
  rewrite <- !list_fmap_compose. f_equal.
Qed.

Lemma value_present_activated c v w :
  value_present v (activated c w) ↔ value_present v c.
Proof.
  unfold value_present. simpl. unfold getLanguageTabButtons. split.
  - intros (b & Hb & Hv). apply list_elem_of_fmap in Hb as (b0 & -> & Hb0).
    by exists b0.
  - intros (b & Hb & Hv). exists (activate_button w b). split; [|done].
    apply list_elem_of_fmap. by exists b.
Qed.

(** In a list whose present keys are pairwise distinct, an element with key
    [v] splits the list into two parts free of [v]. *)
Lemma unique_key_split {A} (key : A → option string) (l : list A) v :
  NoDup (omap key l) →
  (∃ x, x ∈ l ∧ key x = Some v) →
  ∃ before x after,
    l = before ++ x :: after ∧ key x = Some v ∧
    Forall (λ y, key y ≠ Some v) (before ++ after).
Proof.
  induction l as [|a l IH]; intros Hnd (x & Hx & Hv).
  - by apply elem_of_nil in Hx.
  - simpl in Hnd. destruct (decide (key a = Some v)) as [Ha|Ha].
    + exists [], a, l. split; [done|]. split; [done|]. simpl.
      rewrite Ha in Hnd. simpl in Hnd. apply NoDup_cons in Hnd as [Hnotin _].
      apply Forall_forall. intros y Hy Hky. apply Hnotin.
      apply list_elem_of_omap. by exists y.
    + assert (NoDup (omap key l)) as Hnd'.
      { destruct (key a); simpl in Hnd; [by apply NoDup_cons in Hnd as [_ ?]|done]. }
      apply elem_of_cons in Hx as [->|Hx]; [done|].
      destruct (IH Hnd') as (before & y & after & -> & Hy & Hrest); [by exists x|].
      exists (a :: before), y, after. split; [done|]. split; [done|].
      simpl. by constructor.
Qed.

Lemma filter_one_split {A} (P : A → Prop) `{!∀ x, Decision (P x)} (l : list A) :
  length (filter P l) = 1 →
  ∃ before x after,
    l = before ++ x :: after ∧ P x ∧ Forall (λ y, ¬ P y) (before ++ after).
Proof.
  induction l as [|a l IH]; intros Hlen; [done|].
  rewrite filter_cons in Hlen. destruct (decide (P a)) as [Ha|Ha].
  - exists [], a, l. split; [done|]. split; [done|]. simpl.
    simpl in Hlen. injection Hlen as Hlen. apply nil_length_inv in Hlen.
    apply Forall_forall. intros y Hy HPy.
    assert (y ∈ filter P l) as Hin by (by apply list_elem_of_filter).
    rewrite Hlen in Hin. by apply elem_of_nil in Hin.
  - destruct (IH Hlen) as (before & x & after & -> & Hx & Hrest).
    exists (a :: before), x, after. split; [done|]. split; [done|].
    simpl. by constructor.
Qed.

Lemma activate_button_selected v b :
  button_value b = Some v →
  activate_button v b = mkTabButton (Some v) true (Some "true") (Some "0").
Proof.
  intros H. unfold activate_button.
  apply strict_equals_true in H as H'. by rewrite H', H.
Qed.

Lemma activated_sole_button c v :
  unique_button_values c → value_present v c →
  sole_active_button v (activated c v).
Proof.
  intros Hnd Hv.
  destruct (unique_key_split button_value (tab_buttons c) v Hnd Hv)
    as (before & b & after & Hsplit & Hb & Hrest).
  exists (activate_button v <$> before), (activate_button v b),
         (activate_button v <$> after).
  split.
  { simpl. unfold getLanguageTabButtons. by rewrite Hsplit, fmap_app. }
  rewrite (activate_button_selected v b Hb). simpl.
  repeat (split; [done|]). rewrite <- fmap_app. apply Forall_fmap.
  eapply Forall_impl; [exact Hrest|]. intros y Hy. simpl.
  by apply activate_button_other.
Qed.

Lemma activated_sole_panel c v :
  length (filter (λ p, panel_value p = Some v) (tab_panels c)) = 1 →
  sole_active_panel v (activated c v).
Proof.
  intros Hone.
  destruct (filter_one_split _ _ Hone) as (before & p & after & Hsplit & Hp & Hrest).
  exists (activate_panel v <$> before), (activate_panel v p),
         (activate_panel v <$> after).
  simpl. unfold getLanguageTabPanels. rewrite Hsplit, fmap_app. simpl.
  split; [done|]. split; [done|]. split; [by apply strict_equals_true|].
  rewrite <- fmap_app. apply Forall_fmap.
  eapply Forall_impl; [exact Hrest|]. intros y Hy. simpl.
  by apply strict_equals_false.
Qed.

(** C1, as amended: in a container whose trigger values are pairwise
    distinct, activating a value [v] that one of the triggers carries and that
    exactly one panel carries returns [true] and leaves exactly one trigger
    active and exactly one panel active, both with value [v]; the active
    trigger has [aria-selected] [true] and [tabindex] [0], every other trigger
    has [aria-selected] [false] and [tabindex] [-1]. *)
Theorem activate_present_sole_active (G : Container) (v : string) :
  unique_button_values G →
  value_present v G →
  length (filter (λ p, panel_value p = Some v) (tab_panels G)) = 1 →
  fst (activateTabValueInContainer G v) = true ∧
  sole_active_button v (snd (activateTabValueInContainer G v)) ∧
  sole_active_panel v (snd (activateTabValueInContainer G v)).
Proof.
  intros Hnd Hv Hone. rewrite (activate_present G v Hv). simpl.
  split; [done|]. split.
  - by apply activated_sole_button.
  - by apply activated_sole_panel.
Qed.

Lemma activate_present_sole_active_witness :
  fst (activateTabValueInContainer single_rust_group "rust") = true ∧
  sole_active_button "rust" (snd (activateTabValueInContainer single_rust_group "rust")) ∧
  sole_active_panel "rust" (snd (activateTabValueInContainer single_rust_group "rust")).
Proof.
  apply (activate_present_sole_active single_rust_group "rust").
  - unfold unique_button_values. simpl. apply NoDup_singleton.
  - exists (trigger "rust" false). split; [|done].
    simpl. apply list_elem_of_here.
  - reflexivity.
Defined.

(** C1 as stated fails where the activated trigger has no panel: the value
    is present among the triggers, the call returns [true], and no panel is
    active afterwards. *)
Lemma activate_present_orphan_trigger :
  value_present "rust" orphan_trigger_group ∧
  fst (activateTabValueInContainer orphan_trigger_group "rust") = true ∧
  ¬ sole_active_panel "rust"
      (snd (activateTabValueInContainer orphan_trigger_group "rust")).
Proof.
  split; [|split].
  - exists (trigger "rust" false). split; [|done].
    simpl. apply list_elem_of_here.
  - reflexivity.
  - intros (before & p & after & Hsplit & _). simpl in Hsplit.
    by destruct before.
Qed.

(** C3: activating a value that no trigger of the container carries returns
    [false] and leaves the container, with every flag and attribute of its
    triggers and panels, as it was. *)
Theorem activate_absent_no_mutation (G : Container) (v : string) :
  ¬ value_present v G →
  activateTabValueInContainer G v = (false, G).
Proof. apply activate_not_present. Qed.

Lemma activate_absent_no_mutation_witness :
  activateTabValueInContainer single_rust_group "python" = (false, single_rust_group).
Proof.
  apply (activate_absent_no_mutation single_rust_group "python").
  intros (b & Hb & Hv). simpl in Hb.
  apply list_elem_of_singleton in Hb. subst b. discriminate Hv.
Defined.

(** C4: a second activation of the same value returns what the first one
    returned and leaves the container as the first one left it; when a trigger
    carries the value both calls return [true]. *)
Theorem activate_idempotent (G : Container) (v : string) :
  activateTabValueInContainer (snd (activateTabValueInContainer G v)) v
  = activateTabValueInContainer G v ∧
  (value_present v G →
   fst (activateTabValueInContainer G v) = true ∧
   fst (activateTabValueInContainer (snd (activateTabValueInContainer G v)) v) = true).
Proof.
  destruct (value_present_dec v G) as [Hv|Hv].
  - rewrite (activate_present G v Hv). simpl.
    assert (value_present v (activated G v)) as Hv'
      by (by apply value_present_activated).
    rewrite (activate_present _ v Hv'), activated_twice. done.
  - rewrite (activate_not_present G v Hv). simpl.
    rewrite (activate_not_present G v Hv). done.
Qed.

Lemma activate_idempotent_witness :
  fst (activateTabValueInContainer single_rust_group "rust") = true ∧
  fst (activateTabValueInContainer
         (snd (activateTabValueInContainer single_rust_group "rust")) "rust") = true.
Proof.
  apply (activate_idempotent single_rust_group "rust").
  exists (trigger "rust" false). split; [|done].
  simpl. apply list_elem_of_here.
Defined.

(** ** The group invariant *)

Lemma unique_key_filter_le {A} (key : A → option string) (l : list A) v :
  NoDup (omap key l) → length (filter (λ x, key x = Some v) l) ≤ 1.
Proof.
  induction l as [|a l IH]; intros Hnd; [simpl; lia|].
  rewrite filter_cons. simpl in Hnd. destruct (decide (key a = Some v)) as [Ha|Ha].
  - rewrite Ha in Hnd. simpl in Hnd. apply NoDup_cons in Hnd as [Hnotin _].
    destruct (filter _ l) as [|y ?] eqn:E; [simpl; lia|].
    exfalso. apply Hnotin. apply list_elem_of_omap. exists y.
    assert (y ∈ filter (λ x, key x = Some v) l) as Hy
      by (rewrite E; apply list_elem_of_here).
    by apply list_elem_of_filter in Hy as [? ?].
  - apply IH. destruct (key a); simpl in Hnd; [by apply NoDup_cons in Hnd as [_ ?]|done].
Qed.

Lemma filter_active_buttons v (l : list TabButton) :
  filter (λ b, button_is_active b = true) (activate_button v <$> l)
  = activate_button v <$> filter (λ b, button_value b = Some v) l.
Proof.
  induction l as [|b l IH]; [done|].
  rewrite fmap_cons, !filter_cons, IH.
  destruct (decide (button_value b = Some v)) as [Hb|Hb].
  - rewrite decide_True; [done|]. simpl. by apply strict_equals_true.
  - rewrite decide_False; [done|]. simpl. apply strict_equals_false in Hb.
    by rewrite Hb.
Qed.

Lemma filter_active_panels v (l : list TabPanel) :
  filter (λ p, panel_is_active p = true) (activate_panel v <$> l)
  = activate_panel v <$> filter (λ p, panel_value p = Some v) l.
Proof.
  induction l as [|p l IH]; [done|].
  rewrite fmap_cons, !filter_cons, IH.
  destruct (decide (panel_value p = Some v)) as [Hp|Hp].
  - rewrite decide_True; [done|]. simpl. by apply strict_equals_true.
  - rewrite decide_False; [done|]. simpl. apply strict_equals_false in Hp.
    by rewrite Hp.
Qed.



Lemma tab_buttons_activated c v :
  tab_buttons (activated c v) = activate_button v <$> tab_buttons c.
Proof. done. Qed.

Lemma tab_panels_activated c v :
  tab_panels (activated c v) = activate_panel v <$> tab_panels c.
Proof. done. Qed.


(** Activation establishes the invariant, whatever the flags were before. *)
Lemma activated_invariant c v : unique_tab_values c → group_invariant (activated c v).
Proof.
  intros [Hb Hp]. unfold group_invariant.
  rewrite tab_buttons_activated, tab_panels_activated. split; [|split].
  - rewrite filter_active_buttons, length_fmap. by apply unique_key_filter_le.
  - rewrite filter_active_panels, length_fmap. by apply unique_key_filter_le.
  - intros b p Hbin Hpin Hba Hpa.
    apply list_elem_of_fmap in Hbin as (b0 & -> & _).
    apply list_elem_of_fmap in Hpin as (p0 & -> & _).
    simpl in *. apply strict_equals_true in Hba, Hpa. congruence.
Qed.


(** ** Activation across the page *)

Lemma showing_activated c v : showing v (activated c v).
Proof.
  split.
  - rewrite tab_buttons_activated. apply Forall_fmap, Forall_forall.
    intros b _. unfold compose.
    destruct (decide (button_value b = Some v)) as [Hb|Hb].
    + rewrite (activate_button_selected v b Hb). by rewrite decide_True.
    + rewrite decide_False; [|done]. by apply activate_button_other.
  - rewrite tab_panels_activated. apply Forall_fmap, Forall_forall.
    intros p _. simpl. apply strict_equals_true.
Qed.

Lemma same_markup_activated c v : same_markup c (activated c v).
Proof.
  split; [done|]. split.
  - rewrite tab_buttons_activated, <- list_fmap_compose. done.
  - rewrite tab_panels_activated, <- list_fmap_compose. done.
Qed.

Lemma same_markup_refl c : same_markup c c.
Proof. done. Qed.

(** C6: [activateTabValueGlobally] leaves every group of the page in the
    state [activateTabValueInContainer] gives it: a group one of whose triggers
    carries the value shows the value afterwards, whatever its group
    identifier, and a group without the value is unchanged. *)
Theorem activateTabValueGlobally_every_group
    (v : string) (s : State) (i : nat) (G : Container) :
  page s !! i = Some G →
  ∃ G', page (activateTabValueGlobally v s) !! i = Some G' ∧
        G' = snd (activateTabValueInContainer G v) ∧
        same_markup G G' ∧
        (value_present v G → showing v G') ∧
        (¬ value_present v G → G' = G).
Proof.
  intros Hi. exists (snd (activateTabValueInContainer G v)).
  split; [|split; [done|]].
  - simpl. unfold getLanguageTabContainerElements.
    by rewrite list_lookup_fmap, Hi.
  - destruct (value_present_dec v G) as [Hv|Hv].
    + rewrite (activate_present G v Hv). simpl. split; [|split].
      * apply same_markup_activated.
      * intros _. apply showing_activated.
      * done.
    + rewrite (activate_not_present G v Hv). simpl. split; [|split]; done.
Qed.

Lemma activateTabValueGlobally_every_group_witness :
  ∃ G', page (activateTabValueGlobally "python" two_family_state) !! 0 = Some G' ∧
        G' = snd (activateTabValueInContainer rust_group "python") ∧
        same_markup rust_group G' ∧
        (value_present "python" rust_group → showing "python" G') ∧
        (¬ value_present "python" rust_group → G' = rust_group).
Proof.
  apply (activateTabValueGlobally_every_group "python" two_family_state 0 rust_group).
  reflexivity.
Defined.

(** ** The group selector *)

Lemma append_nil_l (y : string) : EmptyString +:+ y = y.
Proof. reflexivity. Qed.

Lemma append_cons (a : ascii) (x y : string) :
  String a x +:+ y = String a (x +:+ y).
Proof. reflexivity. Qed.

Lemma append_assoc_char (x : string) (a : ascii) (y : string) :
  (x +:+ String a EmptyString) +:+ y = x +:+ String a y.
Proof.
  induction x as [|b x IH]; [done|]. by rewrite !append_cons, IH.
Qed.

Lemma append_empty_r (x : string) : x +:+ EmptyString = x.
Proof.
  induction x as [|b x IH]; [done|]. by rewrite append_cons, IH.
Qed.

Lemma plain_character_inv a :
  plain_character a = true →
  Ascii.eqb a QUOTATION_MARK = false ∧ Ascii.eqb a REVERSE_SOLIDUS = false ∧
  Ascii.eqb a LF = false ∧ Ascii.eqb a CR = false ∧ Ascii.eqb a FF = false ∧
  Ascii.eqb a NUL = false.
Proof.
  unfold plain_character. rewrite negb_true_iff, !orb_false_iff. tauto.
Qed.

Lemma filter_code_points_plain groupIdentifier :
  plain_identifier groupIdentifier = true →
  filter_code_points (group_selector_tail groupIdentifier)
  = group_selector_tail groupIdentifier.
Proof.
  unfold group_selector_tail.
  induction groupIdentifier as [|a rest IH]; intros Hplain; [done|].
  simpl in Hplain. apply andb_true_iff in Hplain as [Ha Hrest].
  apply plain_character_inv in Ha as (_ & _ & _ & Hcr & Hff & Hnul).
  rewrite append_cons. simpl. rewrite Hcr, Hff, Hnul. by rewrite (IH Hrest).
Qed.

Lemma consume_string_token_plain groupIdentifier value :
  plain_identifier groupIdentifier = true →
  consume_string_token Plain value (group_selector_tail groupIdentifier)
  = GoodString (value +:+ groupIdentifier) "]".
Proof.
  unfold group_selector_tail. revert value.
  induction groupIdentifier as [|a rest IH]; intros value Hplain.
  - rewrite append_nil_l. simpl. by rewrite append_empty_r.
  - simpl in Hplain. apply andb_true_iff in Hplain as [Ha Hrest].
    apply plain_character_inv in Ha as (Hq & Hrs & Hlf & _).
    rewrite append_cons. simpl. unfold is_newline. rewrite Hq, Hrs, Hlf.
    rewrite (IH _ Hrest). by rewrite append_assoc_char.
Qed.

(** For a plain identifier the selector asks for the identifier itself. *)
Lemma group_selector_value_plain groupIdentifier :
  plain_identifier groupIdentifier = true →
  group_selector_value groupIdentifier = SelectsFamily groupIdentifier.
Proof.
  intros Hplain. unfold group_selector_value.
  rewrite (filter_code_points_plain _ Hplain).
  by rewrite (consume_string_token_plain _ _ Hplain).
Qed.

(** ** Writes under an arbitrary element *)

Lemma same_markup_trans c1 c2 c3 :
  same_markup c1 c2 → same_markup c2 c3 → same_markup c1 c3.
Proof. intros (? & ? & ?) (? & ? & ?). repeat split; congruence. Qed.

Lemma imap_button_values (g : nat → bool) v (l : list TabButton) :
  button_value <$> imap (λ j b, if g j then activate_button v b else b) l
  = button_value <$> l.
Proof.
  apply list_eq. intros j. rewrite !list_lookup_fmap, list_lookup_imap.
  destruct (l !! j); simpl; [|done]. by destruct (g j).
Qed.

Lemma imap_panel_values (g : nat → bool) v (l : list TabPanel) :
  panel_value <$> imap (λ j q, if g j then activate_panel v q else q) l
  = panel_value <$> l.
Proof.
  apply list_eq. intros j. rewrite !list_lookup_fmap, list_lookup_imap.
  destruct (l !! j); simpl; [|done]. by destruct (g j).
Qed.

Lemma keeps_markup_refl_list (p : list Container) : Forall2 same_markup p p.
Proof. apply Forall_Forall2_diag, Forall_forall. by intros c _. Qed.

(** Whatever element it is handed, the activation keeps the markup of every
    container of the page. *)
Lemma activateTabValueInElement_markup e v p :
  Forall2 same_markup p (snd (activateTabValueInElement e v p)).
Proof.
  unfold activateTabValueInElement. destruct (negb _); simpl.
  { apply keeps_markup_refl_list. }
  apply Forall2_same_length_lookup_2; [by rewrite length_imap|].
  intros i c c' Hc Hc'. rewrite list_lookup_imap, Hc in Hc'. simpl in Hc'.
  injection Hc' as <-. split; [done|]. simpl. unfold getLanguageTabButtons,
    getLanguageTabPanels. split.
  - apply imap_button_values.
  - apply imap_panel_values.
Qed.

Lemma elements_markup v (elements : list ElementScope) p :
  Forall2 same_markup p
    (foldl (λ p e, snd (activateTabValueInElement e v p)) p elements).
Proof.
  revert p. induction elements as [|e elements IH]; intros p; simpl.
  - apply keeps_markup_refl_list.
  - eapply Forall2_trans; [|apply activateTabValueInElement_markup|apply IH].
    apply same_markup_trans.
Qed.

Lemma same_markup_identifiers (p p' : list Container) :
  Forall2 same_markup p p' → group_identifier <$> p' = group_identifier <$> p.
Proof.
  induction 1 as [|c c' p p' (Hid & _) _ IH]; [done|].
  by rewrite !fmap_cons, Hid, IH.
Qed.

Lemma group_identifier_activate c v :
  group_identifier (snd (activateTabValueInContainer c v)) = group_identifier c.
Proof. unfold activateTabValueInContainer. by destruct (negb _). Qed.

Lemma plain_page_identifiers (p p' : list Container) :
  group_identifier <$> p' = group_identifier <$> p → plain_page p → plain_page p'.
Proof.
  intros Hids Hplain. unfold plain_page in *.
  apply (Forall_fmap group_identifier
           (λ o, ∀ groupIdentifier, o = Some groupIdentifier →
                 plain_identifier groupIdentifier = true)).
  rewrite Hids. by apply Forall_fmap.
Qed.

Lemma plain_page_activation f p :
  activation_step f → plain_page p → plain_page (f <$> p).
Proof.
  intros Hf. apply plain_page_identifiers. rewrite <- list_fmap_compose.
  apply list_fmap_ext. intros i c _. simpl.
  destruct (Hf c) as [->|[v ->]]; [done|]. apply group_identifier_activate.
Qed.

(** ** The readings of the group selector *)

(** What [activateTabValueForGroup] comes to, by the reading of its
    selector. *)
Lemma activateTabValueForGroup_cases groupIdentifier v s :
  final_state (activateTabValueForGroup groupIdentifier v s) = s ∨
  (∃ value,
     group_selector_value groupIdentifier = SelectsFamily value ∧
     activateTabValueForGroup groupIdentifier v s
     = Returned tt (set_page (family_step value v <$> page s) s)) ∨
  (∃ elements,
     activateTabValueForGroup groupIdentifier v s
     = Returned tt
         (set_page (foldl (λ p e, snd (activateTabValueInElement e v p))
                          (page s) elements) s)).
Proof.
  unfold activateTabValueForGroup.
  destruct (group_selector_value groupIdentifier) as [value| |value rest].
  - right. left. by exists value.
  - by left.
  - destruct (selector_engine s value rest (snapshot s)) as [e|elements].
    + by left.
    + right. right. by exists elements.
Qed.

Lemma activateTabValueForGroup_plain groupIdentifier v s :
  plain_identifier groupIdentifier = true →
  activateTabValueForGroup groupIdentifier v s =
  Returned tt
    (set_page ((λ c, if matches_group groupIdentifier c
                     then snd (activateTabValueInContainer c v) else c)
                 <$> page s) s).
Proof.
  intros Hplain. unfold activateTabValueForGroup.
  by rewrite (group_selector_value_plain _ Hplain).
Qed.

Lemma family_step_activation value v : activation_step (family_step value v).
Proof.
  intros c. unfold family_step. destruct (matches_group value c); [|by left].
  right. by exists v.
Qed.

Lemma page_updateLanguageTabsSyncToggleButtonState s :
  page (updateLanguageTabsSyncToggleButtonState s) = page s.
Proof.
  unfold updateLanguageTabsSyncToggleButtonState.
  by destruct (languageTabsSyncToggleButtonElement s).
Qed.

Lemma page_createLanguageTabsSyncToggle s :
  page (createLanguageTabsSyncToggle s) = page s.
Proof.
  unfold createLanguageTabsSyncToggle.
  destruct (_ <? 2)%nat; [done|].
  destruct (right_buttons s), (left_buttons s); done.
Qed.

(** ** Relations that scripts preserve *)

(** Scripts built from activation passes and focus moves preserve every
    reflexive and transitive relation that those steps preserve.  The pass
    over a family is the one for the identifier of a group of the page, which
    is where the handlers and start-up take the identifier from. *)
Section Preservation.
Context (R : State → State → Prop).
Hypothesis R_refl : ∀ s, R s s.
Hypothesis R_trans : ∀ s1 s2 s3, R s1 s2 → R s2 s3 → R s1 s3.
Hypothesis R_global :
  ∀ s v, isGlobalLanguageTabSyncEnabled s = true → R s (activateTabValueGlobally v s).
Hypothesis R_group :
  ∀ s c groupIdentifier v,
    c ∈ page s → group_identifier c = Some groupIdentifier →
    R s (final_state (activateTabValueForGroup groupIdentifier v s)).
Hypothesis R_focus : ∀ s e, R s (set_active_element e s).

Lemma preserves_ret {A} (a : A) : preserves R (mret a).
Proof. intros s. apply R_refl. Qed.

Lemma preserves_bind {A B} (m : Script A) (f : A → Script B) :
  preserves R m → (∀ a, preserves R (f a)) → preserves R (m ≫= f).
Proof.
  intros Hm Hf s. specialize (Hm s).
  unfold mbind, Script_bind. destruct (m s) as [a s'|e s']; simpl in *.
  - eapply R_trans; [exact Hm|]. apply Hf.
  - done.
Qed.

Lemma preserves_for_each {A} (l : list A) (body : A → Script unit) :
  (∀ x, preserves R (body x)) → preserves R (for_each l body).
Proof.
  intros Hbody. induction l as [|x l IH]; simpl.
  - apply preserves_ret.
  - apply preserves_bind; [apply Hbody|]. by intros _.
Qed.

Lemma truthy_Some x v : truthy x = Some v → x = Some v.
Proof.
  destruct x as [w|]; simpl; [|done]. by destruct (bool_decide _).
Qed.

Lemma preserves_activateDefaultTab container :
  preserves R (activateDefaultTab container).
Proof.
  intros s. unfold activateDefaultTab.
  destruct (page s !! container) as [c|] eqn:Hc; [|apply R_refl].
  destruct (truthy (group_identifier c)) as [groupIdentifier|] eqn:Hid;
    [|apply R_refl].
  apply truthy_Some in Hid.
  destruct (getLanguageTabButtons c) as [|first rest]; [apply R_refl|].
  destruct (truthy _) as [defaultTabValue|]; [|apply R_refl].
  apply (R_group s c); [|done]. apply list_elem_of_lookup. by exists container.
Qed.

Lemma preserves_handleTabClick target : preserves R (handleTabClick target).
Proof.
  intros s. unfold handleTabClick.
  destruct (currentTarget s target) as [tabButton|] eqn:Htarget; [|apply R_refl].
  destruct (truthy _) as [groupIdentifier|] eqn:Hid; [|apply R_refl].
  apply truthy_Some in Hid.
  destruct (truthy _) as [selectedTabValue|]; [|apply R_refl].
  destruct (isGlobalLanguageTabSyncEnabled s) eqn:Hsync; [by apply R_global|].
  destruct target as [container i|value|]; simpl in Htarget; [|by simplify_eq|done].
  destruct (page s !! container) as [c|] eqn:Hc; [|done]. simpl in Htarget.
  destruct (getLanguageTabButtons c !! i); [|done]. simpl in Htarget.
  injection Htarget as <-. simpl in Hid.
  apply (R_group s c); [|done]. apply list_elem_of_lookup. by exists container.
Qed.

Lemma preserves_dispatch_click target : preserves R (dispatch_click target).
Proof. intros s. apply preserves_handleTabClick. Qed.

Lemma preserves_focus_and_click container trigger :
  preserves R (focus_and_click container trigger).
Proof.
  unfold focus_and_click. apply preserves_bind.
  - intros s. apply R_focus.
  - intros _. apply preserves_dispatch_click.
Qed.

Lemma preserves_handleTabKeyboardNavigation target key :
  preserves R (handleTabKeyboardNavigation target key).
Proof.
  intros s. unfold handleTabKeyboardNavigation.
  destruct (currentTarget s target) as [tabButton|]; [|apply R_refl].
  destruct (element_closest tabButton) as [[container c]|]; [|apply R_refl].
  destruct (_ =? -1)%Z; [apply R_refl|].
  destruct (_ =? -1)%Z; [apply R_refl|].
  destruct (_ !! _); [|apply R_refl].
  apply (preserves_bind _ (λ _, mret true)).
  - apply preserves_focus_and_click.
  - intros _. apply preserves_ret.
Qed.

Lemma preserves_defaults l : preserves R (for_each l activateDefaultTab).
Proof. apply preserves_for_each. apply preserves_activateDefaultTab. Qed.
End Preservation.

(** On pages of plain identifiers the family pass is an activation pass, so
    there the scripts preserve every relation that activation passes and
    focus moves preserve. *)
Section OnPlainPages.
Context (R : State → State → Prop).
Hypothesis R_refl : ∀ s, R s s.
Hypothesis R_trans : ∀ s1 s2 s3, R s1 s2 → R s2 s3 → R s1 s3.
Hypothesis R_activation :
  ∀ s f, activation_step f → R s (set_page (f <$> page s) s).
Hypothesis R_focus : ∀ s e, R s (set_active_element e s).

Lemma on_plain_refl s : on_plain R s s.
Proof. intros Hplain. split; [apply R_refl|done]. Qed.

Lemma on_plain_trans s1 s2 s3 :
  on_plain R s1 s2 → on_plain R s2 s3 → on_plain R s1 s3.
Proof.
  intros H12 H23 Hplain. destruct (H12 Hplain) as [HR12 Hplain2].
  destruct (H23 Hplain2) as [HR23 Hplain3]. split; [|done].
  by eapply R_trans.
Qed.

Lemma on_plain_activation s f :
  activation_step f → on_plain R s (set_page (f <$> page s) s).
Proof.
  intros Hf Hplain. split; [by apply R_activation|].
  simpl. by apply plain_page_activation.
Qed.

Lemma on_plain_global s v : on_plain R s (activateTabValueGlobally v s).
Proof. apply on_plain_activation. intros c. right. by exists v. Qed.

Lemma on_plain_identifier groupIdentifier v s :
  plain_identifier groupIdentifier = true →
  on_plain R s (final_state (activateTabValueForGroup groupIdentifier v s)).
Proof.
  intros Hid. rewrite (activateTabValueForGroup_plain _ _ _ Hid). simpl.
  apply (on_plain_activation s (family_step groupIdentifier v)).
  apply family_step_activation.
Qed.

Lemma on_plain_group s c groupIdentifier v :
  c ∈ page s → group_identifier c = Some groupIdentifier →
  on_plain R s (final_state (activateTabValueForGroup groupIdentifier v s)).
Proof.
  intros Hc Hid Hplain.
  assert (plain_identifier groupIdentifier = true) as Hplainid.
  { by apply (proj1 (Forall_forall _ _) Hplain c Hc). }
  by apply on_plain_identifier.
Qed.

Lemma on_plain_focus s e : on_plain R s (set_active_element e s).
Proof. intros Hplain. split; [apply R_focus|done]. Qed.

Lemma on_plain_same_page s s' :
  page s' = page s → R s s' → on_plain R s s'.
Proof. intros Hpage HR Hplain. split; [done|]. by rewrite Hpage. Qed.

Lemma on_plain_activateDefaultTab container :
  preserves (on_plain R) (activateDefaultTab container).
Proof.
  apply preserves_activateDefaultTab; [apply on_plain_refl|apply on_plain_group].
Qed.

Lemma on_plain_defaults l : preserves (on_plain R) (for_each l activateDefaultTab).
Proof.
  apply preserves_defaults;
    [apply on_plain_refl|apply on_plain_trans|apply on_plain_group].
Qed.

Lemma on_plain_handleTabClick target :
  preserves (on_plain R) (handleTabClick target).
Proof.
  apply preserves_handleTabClick;
    [apply on_plain_refl|intros; apply on_plain_global|apply on_plain_group].
Qed.

Lemma on_plain_handleTabKeyboardNavigation target key :
  preserves (on_plain R) (handleTabKeyboardNavigation target key).
Proof.
  apply preserves_handleTabKeyboardNavigation;
    [apply on_plain_refl|apply on_plain_trans|intros; apply on_plain_global
    |apply on_plain_group|apply on_plain_focus].
Qed.

Lemma on_plain_initializeLanguageTabs :
  (∀ s, R s (createLanguageTabsSyncToggle s)) →
  preserves (on_plain R) initializeLanguageTabs.
Proof.
  intros R_create s. unfold initializeLanguageTabs.
  apply (preserves_bind (on_plain R) on_plain_trans _
           (λ _, modify createLanguageTabsSyncToggle)).
  - apply on_plain_defaults.
  - intros _ s'. simpl. apply on_plain_same_page; [|apply R_create].
    apply page_createLanguageTabsSyncToggle.
Qed.

Lemma on_plain_syncToggleClick s :
  (∀ s s', page s' = page s → R s s') →
  on_plain R s (syncToggleClick s).
Proof.
  intros R_page. unfold syncToggleClick. cbv zeta.
  set (s1 := updateLanguageTabsSyncToggleButtonState _).
  assert (page s1 = page s) as Hp
    by (unfold s1; by rewrite page_updateLanguageTabsSyncToggleButtonState).
  assert (on_plain R s s1) as H1 by (apply on_plain_same_page; auto).
  destruct (negb (isGlobalLanguageTabSyncEnabled s1)); [done|].
  destruct (truthy (getFirstActiveTabValue s1)); [|done].
  eapply on_plain_trans; [exact H1|]. apply on_plain_global.
Qed.

(** Every operation, on a page of plain identifiers and called with a plain
    identifier. *)
Lemma on_plain_run op s :
  (∀ s s', page s' = page s → R s s') →
  (∀ s container v,
     R s (set_page (alter (λ c, snd (activateTabValueInContainer c v))
                          container (page s)) s)) →
  plain_operation op → plain_page (page s) → R s (run op s).
Proof.
  intros R_page R_alter Hop Hplain. destruct op; simpl.
  - apply R_alter.
  - by apply on_plain_global.
  - by apply on_plain_identifier.
  - apply on_plain_initializeLanguageTabs; [|done].
    intros s0. apply R_page, page_createLanguageTabsSyncToggle.
  - by apply on_plain_handleTabClick.
  - by apply on_plain_handleTabKeyboardNavigation.
  - by apply on_plain_syncToggleClick.
Qed.
End OnPlainPages.

(** Whatever the identifiers are, the scripts preserve every relation that
    activation passes, writes under the elements a selector returns and focus
    moves preserve. *)
Section EveryIdentifier.
Context (R : State → State → Prop).
Hypothesis R_refl : ∀ s, R s s.
Hypothesis R_trans : ∀ s1 s2 s3, R s1 s2 → R s2 s3 → R s1 s3.
Hypothesis R_activation :
  ∀ s f, activation_step f → R s (set_page (f <$> page s) s).
Hypothesis R_elements :
  ∀ s v elements,
    R s (set_page (foldl (λ p e, snd (activateTabValueInElement e v p))
                         (page s) elements) s).
Hypothesis R_focus : ∀ s e, R s (set_active_element e s).

Lemma every_activateTabValueGlobally s v : R s (activateTabValueGlobally v s).
Proof. apply R_activation. intros c. right. by exists v. Qed.

Lemma every_activateTabValueForGroup groupIdentifier v :
  preserves R (activateTabValueForGroup groupIdentifier v).
Proof.
  intros s.
  destruct (activateTabValueForGroup_cases groupIdentifier v s)
    as [->|[(value & _ & ->)|(elements & ->)]]; simpl.
  - apply R_refl.
  - apply R_activation, family_step_activation.
  - apply R_elements.
Qed.

Lemma every_group s (c : Container) groupIdentifier v :
  c ∈ page s → group_identifier c = Some groupIdentifier →
  R s (final_state (activateTabValueForGroup groupIdentifier v s)).
Proof. intros _ _. apply every_activateTabValueForGroup. Qed.

Lemma every_activateDefaultTab container :
  preserves R (activateDefaultTab container).
Proof. apply preserves_activateDefaultTab; [apply R_refl|apply every_group]. Qed.

Lemma every_defaults l : preserves R (for_each l activateDefaultTab).
Proof.
  apply preserves_defaults; [apply R_refl|apply R_trans|apply every_group].
Qed.

Lemma every_handleTabClick target : preserves R (handleTabClick target).
Proof.
  apply preserves_handleTabClick;
    [apply R_refl|intros; apply every_activateTabValueGlobally|apply every_group].
Qed.

Lemma every_handleTabKeyboardNavigation target key :
  preserves R (handleTabKeyboardNavigation target key).
Proof.
  apply preserves_handleTabKeyboardNavigation;
    [apply R_refl|apply R_trans|intros; apply every_activateTabValueGlobally
    |apply every_group|apply R_focus].
Qed.

Lemma every_run op s :
  (∀ s s', page s' = page s → R s s') →
  (∀ s container v,
     R s (set_page (alter (λ c, snd (activateTabValueInContainer c v))
                          container (page s)) s)) →
  R s (run op s).
Proof.
  intros R_page R_alter. destruct op; simpl.
  - apply R_alter.
  - apply every_activateTabValueGlobally.
  - apply every_activateTabValueForGroup.
  - unfold initializeLanguageTabs.
    apply (preserves_bind R R_trans _ (λ _, modify createLanguageTabsSyncToggle)).
    + apply every_defaults.
    + intros _ s'. simpl. apply R_page, page_createLanguageTabsSyncToggle.
  - apply every_handleTabClick.
  - apply every_handleTabKeyboardNavigation.
  - unfold syncToggleClick. cbv zeta.
    set (s1 := updateLanguageTabsSyncToggleButtonState _).
    assert (R s s1) as H1.
    { apply R_page. unfold s1.
      by rewrite page_updateLanguageTabsSyncToggleButtonState. }
    destruct (negb (isGlobalLanguageTabSyncEnabled s1)); [done|].
    destruct (truthy (getFirstActiveTabValue s1)); [|done].
    eapply R_trans; [exact H1|]. apply every_activateTabValueGlobally.
Qed.
End EveryIdentifier.

(** ** What activation leaves alone *)

Lemma same_frame_refl s : same_frame s s.
Proof. done. Qed.

Lemma same_frame_trans s1 s2 s3 :
  same_frame s1 s2 → same_frame s2 s3 → same_frame s1 s3.
Proof.
  intros (? & ? & ? & ? & ?) (? & ? & ? & ? & ?).
  repeat split; congruence.
Qed.

Lemma same_frame_activation s f :
  activation_step f → same_frame s (set_page (f <$> page s) s).
Proof.
  intros Hf. repeat split; simpl. rewrite <- list_fmap_compose.
  apply list_fmap_ext. intros i c _. simpl.
  destruct (Hf c) as [->|[v ->]]; [done|]. apply group_identifier_activate.
Qed.

Lemma same_frame_focus s e : same_frame s (set_active_element e s).
Proof. done. Qed.

Lemma same_frame_elements s v elements :
  same_frame s
    (set_page (foldl (λ p e, snd (activateTabValueInElement e v p))
                     (page s) elements) s).
Proof.
  repeat split; simpl. apply same_markup_identifiers, elements_markup.
Qed.

Lemma same_frame_activateTabValueGlobally s v :
  same_frame s (activateTabValueGlobally v s).
Proof. apply every_activateTabValueGlobally, same_frame_activation. Qed.

Lemma same_frame_activateTabValueForGroup groupIdentifier v :
  preserves same_frame (activateTabValueForGroup groupIdentifier v).
Proof.
  apply every_activateTabValueForGroup;
    [apply same_frame_refl|apply same_frame_activation|apply same_frame_elements].
Qed.

Lemma same_frame_activateDefaultTab container :
  preserves same_frame (activateDefaultTab container).
Proof.
  apply every_activateDefaultTab;
    [apply same_frame_refl|apply same_frame_activation|apply same_frame_elements].
Qed.

Lemma same_frame_defaults l : preserves same_frame (for_each l activateDefaultTab).
Proof.
  apply every_defaults;
    [apply same_frame_refl|apply same_frame_trans|apply same_frame_activation
    |apply same_frame_elements].
Qed.

Lemma same_frame_handleTabClick target :
  preserves same_frame (handleTabClick target).
Proof.
  apply every_handleTabClick;
    [apply same_frame_refl|apply same_frame_activation|apply same_frame_elements].
Qed.

Lemma same_frame_handleTabKeyboardNavigation target key :
  preserves same_frame (handleTabKeyboardNavigation target key).
Proof.
  apply every_handleTabKeyboardNavigation;
    [apply same_frame_refl|apply same_frame_trans|apply same_frame_activation
    |apply same_frame_elements|apply same_frame_focus].
Qed.

Lemma same_frame_length s s' : same_frame s s' → length (page s') = length (page s).
Proof.
  intros (_ & _ & _ & _ & Hids).
  by rewrite <- (length_fmap group_identifier (page s')), Hids, length_fmap.
Qed.

Lemma same_frame_plain_page s s' :
  same_frame s s' → plain_page (page s) → plain_page (page s').
Proof. intros (_ & _ & _ & _ & Hids). by apply plain_page_identifiers. Qed.
(** ** Plain identifiers never make the script throw *)

Lemma activateDefaultTab_plain container s :
  plain_page (page s) → has_thrown (activateDefaultTab container s) = false.
Proof.
  intros Hplain. unfold activateDefaultTab.
  destruct (page s !! container) as [c|] eqn:Hc; [|done].
  destruct (truthy (group_identifier c)) as [groupIdentifier|] eqn:Hid; [|done].
  apply truthy_Some in Hid.
  destruct (getLanguageTabButtons c) as [|first rest]; [done|].
  destruct (truthy _) as [defaultTabValue|]; [|done].
  rewrite activateTabValueForGroup_plain; [done|].
  by apply (Forall_lookup_1 _ _ _ _ Hplain Hc).
Qed.

Lemma for_each_activateDefaultTab_plain l s :
  plain_page (page s) →
  ∃ s', for_each l activateDefaultTab s = Returned tt s' ∧ same_frame s s'.
Proof.
  revert s. induction l as [|container l IH]; intros s Hplain.
  - by exists s.
  - simpl. unfold mbind, Script_bind.
    pose proof (activateDefaultTab_plain container s Hplain) as Hret.
    pose proof (same_frame_activateDefaultTab container s) as Hframe.
    destruct (activateDefaultTab container s) as [[] s1|e s1]; [|done].
    simpl in Hframe.
    destruct (IH s1) as (s' & Hs' & Hframe'); [by eapply same_frame_plain_page|].
    exists s'. split; [done|]. by eapply same_frame_trans.
Qed.

(** On a page of plain identifiers start-up returns: the defaults are
    activated, which leaves the frame alone, and then the toggle is made. *)
Lemma initializeLanguageTabs_plain s :
  plain_page (page s) →
  ∃ s1, same_frame s s1 ∧
        initializeLanguageTabs s = Returned tt (createLanguageTabsSyncToggle s1).
Proof.
  intros Hplain. unfold initializeLanguageTabs, mbind, Script_bind.
  destruct (for_each_activateDefaultTab_plain
              (seq 0 (length (getLanguageTabContainerElements s))) s Hplain)
    as (s1 & -> & Hframe).
  by exists s1.
Qed.

(** The frame lemma [activateTabValueForGroup] is written for: with a plain
    identifier, a group of another family, or of none, is not touched. *)
Lemma activateTabValueForGroup_plain_frame groupIdentifier v s i G :
  plain_identifier groupIdentifier = true →
  page s !! i = Some G →
  group_identifier G ≠ Some groupIdentifier →
  page (final_state (activateTabValueForGroup groupIdentifier v s)) !! i = Some G.
Proof.
  intros Hplain Hi Hne. rewrite (activateTabValueForGroup_plain _ _ _ Hplain).
  simpl. rewrite list_lookup_fmap, Hi. simpl.
  unfold matches_group. apply strict_equals_false in Hne. by rewrite Hne.
Qed.

(** C5 fails on the code for an identifier with an escape: the selector built
    from reverse solidus, [z] asks for the family [z], so the call changes a
    group whose identifier differs from the one passed and leaves the group
    that carries the identifier as it was. *)
Lemma activateTabValueForGroup_escaped_identifier :
  group_identifier z_group ≠ Some escaped_identifier ∧
  group_identifier escaped_group = Some escaped_identifier ∧
  page escaped_state = [escaped_group; z_group] ∧
  activateTabValueForGroup escaped_identifier "y" escaped_state
  = Returned tt (set_page [escaped_group; activated z_group "y"] escaped_state) ∧
  handleTabClick (TriggerAt 0 1) escaped_state
  = Returned tt (set_page [escaped_group; activated z_group "y"] escaped_state) ∧
  activated z_group "y" ≠ z_group.
Proof. repeat split; done. Qed.

(** C10 fails on the code for an identifier with a quotation mark: the
    selector is malformed, so a click on a trigger of the group throws, and
    start-up throws at that group before the groups after it get their default
    and before the sync toggle is made. *)
Lemma quoted_identifier_throws :
  handleTabClick (TriggerAt 0 1) (load quoted_markup)
  = Threw SyntaxError (load quoted_markup) ∧
  initializeLanguageTabs (load quoted_markup)
  = Threw SyntaxError (load quoted_markup).
Proof. split; reflexivity. Qed.

(** ** The group invariant under the operations *)











Lemma two_family_state_plain : plain_page (page two_family_state).
Proof.
  apply Forall_cons. split; [by intros groupIdentifier [= <-]|].
  apply Forall_cons. split; [by intros groupIdentifier [= <-]|].
  apply Forall_nil_2.
Qed.



(** The restriction to plain identifiers is needed.  With the identifier
    above the group selector goes on after the attribute test; on a page whose
    triggers sit in a [.language-tabs-list] element, [querySelectorAll] returns
    that element, and [activateTabValueInContainer] on it finds the triggers
    and no panel.  A click on the second trigger then leaves the second
    trigger and the first panel active. *)
Lemma injected_selector_breaks_invariant :
  group_selector_value injected_identifier
  = Continues "a" ("], .language-tabs-list, [x="
                   +:+ String QUOTATION_MARK (String QUOTATION_MARK "]")) ∧
  Forall unique_tab_values (page (load injected_markup)) ∧
  Forall group_invariant (page (load injected_markup)) ∧
  page (run (Click (TriggerAt 0 1)) (load injected_markup))
  = [{| group_identifier := Some injected_identifier;
        tab_buttons := [mkTabButton (Some "x") false (Some "false") (Some "-1");
                        mkTabButton (Some "y") true (Some "true") (Some "0")];
        tab_panels := [panel "x" true; panel "y" false] |}] ∧
  ¬ Forall group_invariant (page (run (Click (TriggerAt 0 1)) (load injected_markup))).
Proof.
  assert (page (run (Click (TriggerAt 0 1)) (load injected_markup))
          = [{| group_identifier := Some injected_identifier;
                tab_buttons := [mkTabButton (Some "x") false (Some "false") (Some "-1");
                                mkTabButton (Some "y") true (Some "true") (Some "0")];
                tab_panels := [panel "x" true; panel "y" false] |}]) as Hpage
    by (by vm_compute).
  split; [by vm_compute|]. split; [|split; [|split; [exact Hpage|]]].
  - apply Forall_cons. split; [|apply Forall_nil_2]. split.
    + unfold unique_button_values. simpl. apply (bool_decide_unpack _). by vm_compute.
    + unfold unique_panel_values. simpl. apply (bool_decide_unpack _). by vm_compute.
  - apply Forall_cons. split; [|apply Forall_nil_2].
    split; [vm_compute; lia|]. split; [vm_compute; lia|].
    intros b p Hb Hp Hba Hpa. simpl in Hb, Hp.
    apply elem_of_cons in Hb as [->|Hb];
      [|repeat (apply elem_of_cons in Hb as [->|Hb]; [discriminate Hba|]);
        by apply elem_of_nil in Hb].
    apply elem_of_cons in Hp as [->|Hp]; [done|].
    repeat (apply elem_of_cons in Hp as [->|Hp]; [discriminate Hpa|]).
    by apply elem_of_nil in Hp.
  - rewrite Hpage. intros H. apply Forall_cons in H as [(_ & _ & Hvalues) _].
    specialize (Hvalues (mkTabButton (Some "y") true (Some "true") (Some "0"))
                        (panel "x" true)).
    simpl in Hvalues. discriminate Hvalues; try done.
    + apply list_elem_of_further, list_elem_of_here.
    + apply list_elem_of_here.
Qed.

(** ** The sync toggle in the menu bar *)

Lemma header_items_load m : SyncToggleRef ∉ header_items (load m).
Proof.
  unfold header_items, load. simpl. intros Hin.
  apply elem_of_app in Hin as [Hin|Hin].
  - destruct (markup_right_buttons m) as [labels|]; simpl in Hin.
    + by apply list_elem_of_fmap in Hin as (? & ? & _).
    + by apply elem_of_nil in Hin.
  - destruct (markup_left_buttons m) as [labels|]; simpl in Hin.
    + by apply list_elem_of_fmap in Hin as (? & ? & _).
    + by apply elem_of_nil in Hin.
Qed.

Lemma same_frame_header_items s s' : same_frame s s' → header_items s' = header_items s.
Proof. intros (Hr & Hl & _). unfold header_items. by rewrite Hr, Hl. Qed.

Lemma same_frame_toggle_in_step s s' :
  same_frame s s' → toggle_in_step s → toggle_in_step s'.
Proof.
  intros Hframe [Hin (t & Ht & Hlabel)].
  pose proof (same_frame_header_items _ _ Hframe) as Hh.
  destruct Hframe as (_ & _ & Hflag & Htoggle & _).
  split; [by rewrite Hh|]. exists t. by rewrite Htoggle, Hflag.
Qed.

(** What [createLanguageTabsSyncToggle] does, by cases. *)
Lemma createLanguageTabsSyncToggle_cases s :
  (length (page s) < 2 ∨ (right_buttons s = None ∧ left_buttons s = None)) ∧
  createLanguageTabsSyncToggle s = s
  ∨
  2 ≤ length (page s) ∧
  (is_Some (right_buttons s) ∨ is_Some (left_buttons s)) ∧
  toggle_in_step (createLanguageTabsSyncToggle s) ∧
  isGlobalLanguageTabSyncEnabled (createLanguageTabsSyncToggle s)
  = isGlobalLanguageTabSyncEnabled s.
Proof.
  unfold createLanguageTabsSyncToggle, getLanguageTabContainerElements.
  destruct (length (page s) <? 2)%nat eqn:Hlen.
  { left. apply Nat.ltb_lt in Hlen. split; [by left|done]. }
  apply Nat.ltb_ge in Hlen.
  destruct (right_buttons s) as [children|] eqn:Hr.
  - right. split; [done|]. split; [left; by eexists|]. split; [|done].
    split.
    + unfold header_items. simpl. apply list_elem_of_here.
    + eexists. split; [done|]. simpl. by destruct (isGlobalLanguageTabSyncEnabled s).
  - destruct (left_buttons s) as [children|] eqn:Hl.
    + right. split; [done|]. split; [right; by eexists|]. split; [|done].
      split.
      * unfold header_items. simpl. rewrite Hr. simpl. apply list_elem_of_here.
      * eexists. split; [done|]. simpl. by destruct (isGlobalLanguageTabSyncEnabled s).
    + left. split; [by right|done].
Qed.

Lemma toggle_in_step_syncToggleClick s :
  toggle_in_step s → toggle_in_step (syncToggleClick s).
Proof.
  intros [Hin (t & Ht & Hlabel)]. unfold syncToggleClick. cbv zeta.
  set (s1 := updateLanguageTabsSyncToggleButtonState _).
  assert (toggle_in_step s1) as Hs1.
  { unfold s1, updateLanguageTabsSyncToggleButtonState. simpl. rewrite Ht.
    split; [done|]. eexists. split; [done|]. simpl.
    by destruct (negb (isGlobalLanguageTabSyncEnabled s)). }
  destruct (negb (isGlobalLanguageTabSyncEnabled s1)); [done|].
  destruct (truthy (getFirstActiveTabValue s1)); [|done].
  eapply same_frame_toggle_in_step; [|exact Hs1].
  apply same_frame_activateTabValueGlobally.
Qed.

Lemma toggle_in_step_initializeLanguageTabs s :
  toggle_in_step s → toggle_in_step (final_state (initializeLanguageTabs s)).
Proof.
  intros Hs. unfold initializeLanguageTabs, mbind, Script_bind.
  pose proof (same_frame_defaults
                (seq 0 (length (getLanguageTabContainerElements s))) s) as Hframe.
  destruct (for_each _ _ s) as [[] s1|e s1]; simpl in *.
  - apply (same_frame_toggle_in_step _ _ Hframe) in Hs.
    destruct (createLanguageTabsSyncToggle_cases s1) as [[_ ->]|(_ & _ & H & _)]; done.
  - by apply (same_frame_toggle_in_step _ _ Hframe).
Qed.

Lemma toggle_in_step_run op s : toggle_in_step s → toggle_in_step (run op s).
Proof.
  intros Hs. destruct op; simpl.
  - eapply same_frame_toggle_in_step; [|exact Hs]. repeat split; simpl.
    apply list_eq. intros i. rewrite !list_lookup_fmap, list_lookup_alter.
    destruct (decide (container = i)) as [->|]; [|done].
    destruct (page s !! i); [|done]. simpl. by rewrite group_identifier_activate.
  - eapply same_frame_toggle_in_step; [|exact Hs].
    apply same_frame_activateTabValueGlobally.
  - eapply same_frame_toggle_in_step; [|exact Hs].
    apply same_frame_activateTabValueForGroup.
  - by apply toggle_in_step_initializeLanguageTabs.
  - eapply same_frame_toggle_in_step; [|exact Hs].
    apply same_frame_handleTabClick.
  - eapply same_frame_toggle_in_step; [|exact Hs].
    apply same_frame_handleTabKeyboardNavigation.
  - by apply toggle_in_step_syncToggleClick.
Qed.

Lemma toggle_in_step_run_all ops s : toggle_in_step s → toggle_in_step (run_all ops s).
Proof.
  revert s. induction ops as [|op ops IH]; intros s Hs; [done|].
  simpl. apply IH. by apply toggle_in_step_run.
Qed.

(** C9, as amended: on a page whose group identifiers are plain, start-up
    returns, and afterwards the sync toggle is in the menu bar if and only if
    the page has two or more tab groups and the menu bar has a button
    container.  When it is there it reads [Sync Tabs: Off], and after any
    further operations it reads [Sync Tabs: On] when the mode is on and
    [Sync Tabs: Off] when it is off. *)
Theorem initialize_sync_toggle (m : Markup) :
  plain_page (markup_containers m) →
  ∃ s', initializeLanguageTabs (load m) = Returned tt s' ∧
        (SyncToggleRef ∈ header_items s' ↔
         2 ≤ length (markup_containers m) ∧ has_button_container m) ∧
        (SyncToggleRef ∉ header_items s' →
         languageTabsSyncToggleButtonElement s' = None) ∧
        (SyncToggleRef ∈ header_items s' →
         isGlobalLanguageTabSyncEnabled s' = false ∧
         ∀ ops, toggle_in_step (run_all ops s')).
Proof.
  intros Hplain.
  destruct (initializeLanguageTabs_plain (load m) Hplain) as (s1 & Hframe & Hinit).
  exists (createLanguageTabsSyncToggle s1). split; [done|].
  pose proof (header_items_load m) as Hnotin.
  rewrite <- (same_frame_header_items _ _ Hframe) in Hnotin.
  pose proof (same_frame_length _ _ Hframe) as Hlen. simpl in Hlen.
  destruct Hframe as (Hr & Hl & Hflag & Htoggle & _). simpl in Hr, Hl, Hflag, Htoggle.
  assert (has_button_container m ↔
          is_Some (right_buttons s1) ∨ is_Some (left_buttons s1)) as Hhas.
  { rewrite Hr, Hl. unfold has_button_container, menu_items.
    destruct (markup_right_buttons m), (markup_left_buttons m);
      split; intros [[? H]|[? H]]; try discriminate H; eauto. }
  destruct (createLanguageTabsSyncToggle_cases s1)
    as [[Hno ->]|(Htwo & Hsome & Hstep & Hsync)].
  - split; [|split]; [|done|done]. split; [done|].
    intros [Htwo Hcontainer]. exfalso. apply Hhas in Hcontainer.
    destruct Hno as [Hno|[Hno1 Hno2]]; [lia|].
    rewrite Hno1, Hno2 in Hcontainer.
    destruct Hcontainer as [[? H]|[? H]]; discriminate H.
  - split; [|split].
    + split; [intros _|intros _; apply Hstep].
      split; [lia|by apply Hhas].
    + intros Hnot. by destruct Hstep as [Hin _].
    + intros _. split; [by rewrite Hsync, Hflag|].
      intros ops. by apply toggle_in_step_run_all.
Qed.

Lemma initialize_sync_toggle_witness :
  ∃ s', initializeLanguageTabs (load two_group_markup) = Returned tt s' ∧
        SyncToggleRef ∈ header_items s' ∧
        toggle_in_step (run_all [ToggleSync] s').
Proof.
  destruct (initialize_sync_toggle two_group_markup) as (s' & Hinit & Hiff & _ & Hstep).
  - unfold plain_page. simpl.
    apply Forall_cons. split; [by intros ? [= <-]|].
    apply Forall_cons. split; [done|apply Forall_nil_2].
  - exists s'. split; [done|].
    assert (SyncToggleRef ∈ header_items s') as Hin.
    { apply Hiff. split; [simpl; lia|]. left. by eexists. }
    split; [done|]. by apply Hstep.
Defined.

(** C9 as stated fails on a page with two groups whose menu bar has no
    button container: start-up returns and no sync toggle is made. *)
Lemma initialize_without_button_container :
  2 ≤ length (markup_containers bare_markup) ∧
  ∃ s', initializeLanguageTabs (load bare_markup) = Returned tt s' ∧
        (SyncToggleRef ∉ header_items s') ∧
        languageTabsSyncToggleButtonElement s' = None.
Proof.
  split; [simpl; lia|]. eexists. split; [reflexivity|].
  split; [|done]. unfold header_items. simpl. apply not_elem_of_nil.
Qed.

(** ** Arrow keys *)

Lemma active_element_activateTabValueForGroup groupIdentifier v s :
  active_element (final_state (activateTabValueForGroup groupIdentifier v s))
  = active_element s.
Proof.
  destruct (activateTabValueForGroup_cases groupIdentifier v s)
    as [->|[(value & _ & ->)|(elements & ->)]]; done.
Qed.

Lemma active_element_handleTabClick target s :
  active_element (final_state (handleTabClick target s)) = active_element s.
Proof.
  unfold handleTabClick.
  destruct (currentTarget s target) as [tabButton|]; [|done].
  destruct (truthy _) as [groupIdentifier|]; [|done].
  destruct (truthy _) as [selectedTabValue|]; [|done].
  destruct (isGlobalLanguageTabSyncEnabled s); [done|].
  apply active_element_activateTabValueForGroup.
Qed.

Lemma truthy_nonempty v : v ≠ EmptyString → truthy (Some v) = Some v.
Proof. intros Hv. simpl. by rewrite bool_decide_eq_false_2. Qed.

(** The click handler on a trigger whose group and value resolve. *)
Lemma handleTabClick_resolved container i c b groupIdentifier v s :
  page s !! container = Some c →
  tab_buttons c !! i = Some b →
  group_identifier c = Some groupIdentifier → groupIdentifier ≠ EmptyString →
  button_value b = Some v → v ≠ EmptyString →
  handleTabClick (TriggerAt container i) s
  = if isGlobalLanguageTabSyncEnabled s
    then Returned tt (activateTabValueGlobally v s)
    else activateTabValueForGroup groupIdentifier v s.
Proof.
  intros Hc Hb Hid Hidne Hv Hvne. unfold handleTabClick. simpl. rewrite Hc. simpl.
  unfold getLanguageTabButtons. rewrite Hb. simpl.
  by rewrite Hid, Hv, (truthy_nonempty _ Hidne), (truthy_nonempty _ Hvne).
Qed.

(** A click that selects a value makes its trigger the active tab. *)
Lemma handleTabClick_selects s container i v :
  click_selects s container i v →
  is_active_tab v container i (final_state (handleTabClick (TriggerAt container i) s)).
Proof.
  intros (c & b & groupIdentifier & Hc & Hb & Hv & Hvne & Hid & Hidne & Hmode).
  assert (value_present v c) as Hpresent.
  { exists b. split; [|done]. apply list_elem_of_lookup. by exists i. }
  assert (page (final_state (handleTabClick (TriggerAt container i) s)) !! container
          = Some (activated c v)) as Hpage.
  { rewrite (handleTabClick_resolved container i c b groupIdentifier v s) by done.
    destruct (isGlobalLanguageTabSyncEnabled s) eqn:Hsync.
    - simpl. rewrite list_lookup_fmap. unfold getLanguageTabContainerElements.
      rewrite Hc. simpl. by rewrite (activate_present c v Hpresent).
    - destruct Hmode as [?|Hplain]; [done|].
      rewrite (activateTabValueForGroup_plain _ _ _ Hplain). simpl.
      rewrite list_lookup_fmap, Hc. simpl. unfold matches_group.
      apply strict_equals_true in Hid. rewrite Hid.
      by rewrite (activate_present c v Hpresent). }
  exists (activated c v), (activate_button v b).
  split; [done|]. split; [apply showing_activated|].
  split; [by rewrite tab_buttons_activated, list_lookup_fmap, Hb|].
  by rewrite (activate_button_selected v b Hv).
Qed.

(** The handler on a key that moves to index [next] of the container:
    [preventDefault] is called, the trigger there gets the focus, and
    [click()] on it leaves the state its click listener leaves. *)
Lemma handleTabKeyboardNavigation_moves s container i c key next :
  page s !! container = Some c →
  i < length (tab_buttons c) →
  next_index key (Z.of_nat i) (Z.of_nat (length (tab_buttons c))) = Z.of_nat next →
  next < length (tab_buttons c) →
  handleTabKeyboardNavigation (TriggerAt container i) key s
  = Returned true
      (final_state (handleTabClick (TriggerAt container next)
                      (set_active_element (Some (container, next)) s))).
Proof.
  intros Hc Hi Hnext Hlt. unfold handleTabKeyboardNavigation. simpl.
  rewrite Hc. simpl.
  apply lookup_lt_is_Some_2 in Hi as [b Hb].
  unfold getLanguageTabButtons. rewrite Hb. simpl.
  unfold indexOf. rewrite Hb.
  destruct (Z.eqb_spec (Z.of_nat i) (-1)) as [?|_]; [lia|].
  rewrite Hnext.
  destruct (Z.eqb_spec (Z.of_nat next) (-1)) as [?|_]; [lia|].
  rewrite Nat2Z.id.
  apply lookup_lt_is_Some_2 in Hlt as [b' Hb']. rewrite Hb'.
  done.
Qed.

(** The key handler does not throw: what the click listener throws stays with
    [click()]. *)
Lemma handleTabKeyboardNavigation_returns target key s :
  has_thrown (handleTabKeyboardNavigation target key s) = false.
Proof.
  unfold handleTabKeyboardNavigation.
  destruct (currentTarget s target) as [tabButton|]; [|done].
  destruct (element_closest tabButton) as [[container c]|]; [|done].
  destruct (_ =? -1)%Z; [done|].
  destruct (_ =? -1)%Z; [done|].
  by destruct (_ !! _).
Qed.

Lemma next_index_right i count :
  (0 ≤ i < count)%Z →
  next_index "ArrowRight" i count = Z.of_nat (Z.to_nat ((i + 1) `mod` count)).
Proof.
  intros Hi. unfold next_index. simpl. rewrite Z.rem_mod_nonneg by lia.
  pose proof (Z.mod_pos_bound (i + 1) count). lia.
Qed.

Lemma next_index_left i count :
  (0 ≤ i < count)%Z →
  next_index "ArrowLeft" i count = Z.of_nat (Z.to_nat ((i - 1 + count) `mod` count)).
Proof.
  intros Hi. unfold next_index. simpl. rewrite Z.rem_mod_nonneg by lia.
  pose proof (Z.mod_pos_bound (i - 1 + count) count). lia.
Qed.

(** C8: in a group with [count] triggers, ArrowRight on the trigger at
    index [i] moves to index [(i + 1) mod count] and ArrowLeft to index
    [(i - 1 + count) mod count].  The handler calls [preventDefault], the
    trigger there gets the focus and is clicked: the handler returns in the
    state the click handler leaves on that trigger, and whenever a click on
    the trigger selects its value, the trigger is the active tab of its group
    afterwards.  Every other key leaves the state as it is. *)
Theorem keyboard_navigation
    (s : State) (container i : nat) (c : Container) (key : string) :
  page s !! container = Some c →
  i < length (tab_buttons c) →
  let count := Z.of_nat (length (tab_buttons c)) in
  let right := Z.to_nat ((Z.of_nat i + 1) `mod` count) in
  let left := Z.to_nat ((Z.of_nat i - 1 + count) `mod` count) in
  let pressed key := handleTabKeyboardNavigation (TriggerAt container i) key s in
  let focused next := set_active_element (Some (container, next)) s in
  right < length (tab_buttons c) ∧
  left < length (tab_buttons c) ∧
  pressed "ArrowRight"
  = Returned true
      (final_state (handleTabClick (TriggerAt container right) (focused right))) ∧
  active_element (final_state (pressed "ArrowRight")) = Some (container, right) ∧
  (∀ v, click_selects s container right v →
        is_active_tab v container right (final_state (pressed "ArrowRight"))) ∧
  pressed "ArrowLeft"
  = Returned true
      (final_state (handleTabClick (TriggerAt container left) (focused left))) ∧
  active_element (final_state (pressed "ArrowLeft")) = Some (container, left) ∧
  (∀ v, click_selects s container left v →
        is_active_tab v container left (final_state (pressed "ArrowLeft"))) ∧
  (key ≠ "ArrowRight" → key ≠ "ArrowLeft" → pressed key = Returned false s).
Proof.
  intros Hc Hi count right left pressed focused.
  assert (0 < count)%Z as Hcount by (unfold count; lia).
  assert (right < length (tab_buttons c)) as Hright.
  { unfold right. pose proof (Z.mod_pos_bound (Z.of_nat i + 1) count Hcount).
    unfold count in *. lia. }
  assert (left < length (tab_buttons c)) as Hleft.
  { unfold left. pose proof (Z.mod_pos_bound (Z.of_nat i - 1 + count) count Hcount).
    unfold count in *. lia. }
  assert (pressed "ArrowRight"
          = Returned true
              (final_state (handleTabClick (TriggerAt container right) (focused right))))
    as Hr.
  { apply (handleTabKeyboardNavigation_moves s container i c); [done..| |done].
    apply next_index_right. unfold count. lia. }
  assert (pressed "ArrowLeft"
          = Returned true
              (final_state (handleTabClick (TriggerAt container left) (focused left))))
    as Hl.
  { apply (handleTabKeyboardNavigation_moves s container i c); [done..| |done].
    apply next_index_left. unfold count. lia. }
  split; [done|]. split; [done|]. split; [done|]. split.
  { rewrite Hr. simpl. by rewrite active_element_handleTabClick. }
  split.
  { intros v Hv. rewrite Hr. simpl. by apply handleTabClick_selects. }
  split; [done|]. split.
  { rewrite Hl. simpl. by rewrite active_element_handleTabClick. }
  split.
  { intros v Hv. rewrite Hl. simpl. by apply handleTabClick_selects. }
  intros Hnr Hnl. unfold pressed, handleTabKeyboardNavigation. simpl.
  rewrite Hc. simpl.
  apply lookup_lt_is_Some_2 in Hi as [b Hb].
  unfold getLanguageTabButtons. rewrite Hb. simpl.
  unfold indexOf. rewrite Hb.
  destruct (Z.eqb_spec (Z.of_nat i) (-1)) as [?|_]; [lia|].
  unfold next_index. by rewrite !bool_decide_eq_false_2.
Qed.

(** From the last of three triggers ArrowRight goes to the first, and from
    the first ArrowLeft goes to the last, which becomes the active tab in
    place of the first; another key does nothing. *)
Lemma keyboard_navigation_witness :
  (active_element
     (final_state (handleTabKeyboardNavigation (TriggerAt 0 2) "ArrowRight"
                     (load two_group_markup)))
   = Some (0, 0) ∧
   is_active_tab "rust" 0 0
     (final_state (handleTabKeyboardNavigation (TriggerAt 0 2) "ArrowRight"
                     (load two_group_markup)))) ∧
  (active_element
     (final_state (handleTabKeyboardNavigation (TriggerAt 0 0) "ArrowLeft"
                     (load two_group_markup)))
   = Some (0, 2) ∧
   is_active_tab "typescript" 0 2
     (final_state (handleTabKeyboardNavigation (TriggerAt 0 0) "ArrowLeft"
                     (load two_group_markup)))) ∧
  handleTabKeyboardNavigation (TriggerAt 0 0) "Enter" (load two_group_markup)
  = Returned false (load two_group_markup).
Proof.
  destruct (keyboard_navigation (load two_group_markup) 0 2 rust_group "Enter")
    as (_ & _ & _ & Hright & Hrust & _); [reflexivity|simpl; lia|].
  destruct (keyboard_navigation (load two_group_markup) 0 0 rust_group "Enter")
    as (_ & _ & _ & _ & _ & _ & Hleft & Htypescript & Hother);
    [reflexivity|simpl; lia|].
  split; [split; [exact Hright|]|split; [split; [exact Hleft|]|by apply Hother]].
  - apply Hrust. exists rust_group, (trigger "rust" true), "lang".
    repeat split; try done. by right.
  - apply Htypescript. exists rust_group, (trigger "typescript" false), "lang".
    repeat split; try done. by right.
Defined.

(** ** Sync mode *)

Lemma find_active_app (l1 l2 : list TabButton) :
  find button_is_active (l1 ++ l2)
  = match find button_is_active l1 with
    | Some b => Some b
    | None => find button_is_active l2
    end.
Proof.
  induction l1 as [|b l1 IH]; [done|]. simpl. by destruct (button_is_active b).
Qed.

Lemma find_active_none (l : list TabButton) :
  Forall button_inactive l → find button_is_active l = None.
Proof.
  induction 1 as [|b l Hb _ IH]; [done|]. simpl. by rewrite Hb.
Qed.

Lemma first_active_value_find (p : list Container) :
  first_active_value p
  = find button_is_active (concat (tab_buttons <$> p)) ≫= button_value.
Proof.
  induction p as [|c p IH]; [done|].
  rewrite fmap_cons, concat_cons, find_active_app. simpl.
  unfold getLanguageTabButtons. by destruct (find button_is_active (tab_buttons c)).
Qed.

(** [getFirstActiveTabValue] reads the first active trigger in page order. *)
Lemma getFirstActiveTabValue_first s before b after :
  page_buttons s = before ++ b :: after →
  Forall button_inactive before →
  button_is_active b = true →
  getFirstActiveTabValue s = button_value b.
Proof.
  intros Hsplit Hbefore Hb. unfold getFirstActiveTabValue, page_buttons in *.
  unfold getLanguageTabContainerElements.
  rewrite first_active_value_find, Hsplit, find_active_app.
  rewrite (find_active_none _ Hbefore). simpl. by rewrite Hb.
Qed.

Lemma getFirstActiveTabValue_none s :
  Forall button_inactive (page_buttons s) → getFirstActiveTabValue s = None.
Proof.
  intros Hnone. unfold getFirstActiveTabValue, getLanguageTabContainerElements.
  rewrite first_active_value_find. unfold page_buttons in Hnone.
  by rewrite (find_active_none _ Hnone).
Qed.

Lemma page_activateTabValueGlobally v s :
  page (activateTabValueGlobally v s)
  = (λ c, snd (activateTabValueInContainer c v)) <$> page s.
Proof. done. Qed.

Lemma activateTabValueGlobally_showing v s i G :
  page s !! i = Some G → value_present v G →
  ∃ G', page (activateTabValueGlobally v s) !! i = Some G' ∧ showing v G'.
Proof.
  intros Hi Hv. exists (activated G v). split; [|apply showing_activated].
  rewrite page_activateTabValueGlobally, list_lookup_fmap, Hi. simpl.
  by rewrite (activate_present G v Hv).
Qed.

(** The toggle click when the mode was off: the mode is on, the toggle is
    refreshed, and the first active value, when there is a truthy one, is
    activated everywhere. *)
Lemma syncToggleClick_on s :
  isGlobalLanguageTabSyncEnabled s = false →
  syncToggleClick s =
  let s1 := updateLanguageTabsSyncToggleButtonState (set_sync_enabled true s) in
  match truthy (getFirstActiveTabValue s) with
  | Some v => activateTabValueGlobally v s1
  | None => s1
  end.
Proof.
  intros Hoff. unfold syncToggleClick. cbv zeta. rewrite Hoff. simpl.
  set (s1 := updateLanguageTabsSyncToggleButtonState _).
  assert (isGlobalLanguageTabSyncEnabled s1 = true) as ->.
  { unfold s1, updateLanguageTabsSyncToggleButtonState. simpl.
    by destruct (languageTabsSyncToggleButtonElement s). }
  assert (getFirstActiveTabValue s1 = getFirstActiveTabValue s) as ->.
  { unfold getFirstActiveTabValue, getLanguageTabContainerElements, s1.
    by rewrite page_updateLanguageTabsSyncToggleButtonState. }
  done.
Qed.

Lemma sync_enabled_activateTabValueGlobally v s :
  isGlobalLanguageTabSyncEnabled (activateTabValueGlobally v s)
  = isGlobalLanguageTabSyncEnabled s.
Proof. done. Qed.

Lemma sync_enabled_update s :
  isGlobalLanguageTabSyncEnabled (updateLanguageTabsSyncToggleButtonState s)
  = isGlobalLanguageTabSyncEnabled s.
Proof.
  unfold updateLanguageTabsSyncToggleButtonState.
  by destruct (languageTabsSyncToggleButtonElement s).
Qed.

(** C7, as amended: turning the mode on when the first active trigger in
    page order carries a non-empty value [v] activates [v] everywhere, so every
    group with a trigger for [v] shows it; with no active trigger on the
    page the page stays as it is; and while the mode is on, a click on a
    trigger with a non-empty value in a group with a non-empty identifier
    activates that value everywhere. *)
Theorem global_sync (s : State) :
  (isGlobalLanguageTabSyncEnabled s = false →
   isGlobalLanguageTabSyncEnabled (syncToggleClick s) = true ∧
   (∀ before b after v,
      page_buttons s = before ++ b :: after →
      Forall button_inactive before →
      button_is_active b = true →
      button_value b = Some v → v ≠ EmptyString →
      page (syncToggleClick s) = page (activateTabValueGlobally v s) ∧
      ∀ i G, page s !! i = Some G → value_present v G →
             ∃ G', page (syncToggleClick s) !! i = Some G' ∧ showing v G') ∧
   (Forall button_inactive (page_buttons s) → page (syncToggleClick s) = page s)) ∧
  (isGlobalLanguageTabSyncEnabled s = true →
   ∀ container i c b groupIdentifier v,
     page s !! container = Some c →
     tab_buttons c !! i = Some b →
     group_identifier c = Some groupIdentifier → groupIdentifier ≠ EmptyString →
     button_value b = Some v → v ≠ EmptyString →
     handleTabClick (TriggerAt container i) s
     = Returned tt (activateTabValueGlobally v s)).
Proof.
  split.
  - intros Hoff. rewrite (syncToggleClick_on s Hoff). cbv zeta.
    split; [|split].
    + destruct (truthy _).
      * by rewrite sync_enabled_activateTabValueGlobally, sync_enabled_update.
      * by rewrite sync_enabled_update.
    + intros before b after v Hsplit Hbefore Hb Hv Hne.
      rewrite (getFirstActiveTabValue_first s before b after Hsplit Hbefore Hb), Hv.
      rewrite (truthy_nonempty v Hne).
      assert (page (activateTabValueGlobally v
                      (updateLanguageTabsSyncToggleButtonState (set_sync_enabled true s)))
              = page (activateTabValueGlobally v s)) as Hpage.
      { rewrite !page_activateTabValueGlobally.
        by rewrite page_updateLanguageTabsSyncToggleButtonState. }
      split; [done|]. intros i G Hi HvG. rewrite Hpage.
      by apply activateTabValueGlobally_showing with G.
    + intros Hnone. rewrite (getFirstActiveTabValue_none s Hnone). simpl.
      by rewrite page_updateLanguageTabsSyncToggleButtonState.
  - intros Hon container i c b groupIdentifier v Hc Hb Hid Hidne Hv Hvne.
    unfold handleTabClick. simpl. rewrite Hc. simpl.
    unfold getLanguageTabButtons. rewrite Hb. simpl.
    rewrite Hid, Hv, (truthy_nonempty _ Hidne), (truthy_nonempty _ Hvne).
    by rewrite Hon.
Qed.

Lemma global_sync_witness :
  page (syncToggleClick (load two_group_markup))
  = page (activateTabValueGlobally "rust" (load two_group_markup)) ∧
  handleTabClick (TriggerAt 0 1) synced_state
  = Returned tt (activateTabValueGlobally "python" synced_state).
Proof.
  split.
  - destruct (global_sync (load two_group_markup)) as [Hoff _].
    destruct (Hoff eq_refl) as (_ & Hfirst & _).
    apply (Hfirst [] (trigger "rust" true)
             [trigger "python" false; trigger "typescript" false;
              trigger "rust" false; trigger "python" true] "rust");
      [reflexivity|apply Forall_nil_2|reflexivity|reflexivity|discriminate].
  - destruct (global_sync synced_state) as [_ Hon].
    apply (Hon eq_refl 0 1 (activated rust_group "rust")
             (activate_button "rust" (trigger "python" false)) "lang" "python");
      try reflexivity; discriminate.
Defined.

(** C7 as stated fails for a click in a group without an identifier: with
    the mode on and every group showing Rust, a click on the Python trigger of
    the group without identifier returns with the page as it was, although
    the first group has a trigger for Python. *)
Lemma global_sync_click_without_identifier :
  isGlobalLanguageTabSyncEnabled synced_state = true ∧
  (element_value <$> currentTarget synced_state (TriggerAt 1 1)) = Some (Some "python") ∧
  handleTabClick (TriggerAt 1 1) synced_state = Returned tt synced_state ∧
  ∃ G, page synced_state !! 0 = Some G ∧
       value_present "python" G ∧ ¬ showing "python" G.
Proof.
  split; [reflexivity|]. split; [reflexivity|]. split; [reflexivity|].
  eexists. split; [reflexivity|]. split.
  - exists (activate_button "rust" (trigger "python" false)).
    split; [|reflexivity]. simpl.
    apply list_elem_of_further, list_elem_of_here.
  - intros [Hbuttons _]. apply Forall_cons in Hbuttons as [Hfirst _].
    simpl in Hfirst. by destruct Hfirst as [Hactive _].
Qed.

(** ** The guards of the click handler *)

(** A click on an element outside every container returns with the state
    as it was. *)
Lemma handleTabClick_detached value s :
  handleTabClick (DetachedElement value) s = Returned tt s.
Proof. done. Qed.

(** So does a click on a trigger without a value, or with an empty one. *)
Lemma handleTabClick_without_value container i c b s :
  page s !! container = Some c →
  tab_buttons c !! i = Some b →
  truthy (button_value b) = None →
  handleTabClick (TriggerAt container i) s = Returned tt s.
Proof.
  intros Hc Hb Hv. unfold handleTabClick. simpl. rewrite Hc. simpl.
  unfold getLanguageTabButtons. rewrite Hb. simpl. rewrite Hv.
  by destruct (truthy (group_identifier c)).
Qed.

(** And a click in a group without an identifier, or with an empty one. *)
Lemma handleTabClick_without_identifier container i c b s :
  page s !! container = Some c →
  tab_buttons c !! i = Some b →
  truthy (group_identifier c) = None →
  handleTabClick (TriggerAt container i) s = Returned tt s.
Proof.
  intros Hc Hb Hid. unfold handleTabClick. simpl. rewrite Hc. simpl.
  unfold getLanguageTabButtons. rewrite Hb. simpl. by rewrite Hid.
Qed.

(** With plain identifiers on the page no click throws. *)
Lemma handleTabClick_plain target s :
  plain_page (page s) → has_thrown (handleTabClick target s) = false.
Proof.
  intros Hplain. unfold handleTabClick.
  destruct (currentTarget s target) as [tabButton|] eqn:Htarget; [|done].
  destruct (truthy _) as [groupIdentifier|] eqn:Hid; [|done].
  apply truthy_Some in Hid.
  destruct (truthy (element_value tabButton)) as [selectedTabValue|]; [|done].
  destruct (isGlobalLanguageTabSyncEnabled s); [done|].
  rewrite activateTabValueForGroup_plain; [done|].
  destruct target as [container i|value|]; simpl in Htarget; [|by simplify_eq|done].
  destruct (page s !! container) as [c|] eqn:Hc; [|done]. simpl in Htarget.
  destruct (getLanguageTabButtons c !! i); [|done]. simpl in Htarget.
  injection Htarget as <-. simpl in Hid.
  by apply (Forall_lookup_1 _ _ _ _ Hplain Hc).
Qed.

(** ** Where an operation writes, it establishes the invariant *)

Lemma omap_fmap_values {A} (f : A → option string) (l : list A) :
  omap f l = omap id (f <$> l).
Proof.
  induction l as [|x l IH]; [done|]. csimpl. rewrite IH. by destruct (f x).
Qed.

Lemma same_markup_unique c c' :
  same_markup c c' → unique_tab_values c → unique_tab_values c'.
Proof.
  intros (_ & Hb & Hp) [Hub Hup]. split.
  - unfold unique_button_values in *.
    by rewrite omap_fmap_values, Hb, <- omap_fmap_values.
  - unfold unique_panel_values in *.
    by rewrite omap_fmap_values, Hp, <- omap_fmap_values.
Qed.

Lemma written_or_left_refl c : written_or_left c c.
Proof. split; [done|by left]. Qed.

Lemma written_or_left_trans c1 c2 c3 :
  written_or_left c1 c2 → written_or_left c2 c3 → written_or_left c1 c3.
Proof.
  intros [Hm12 H12] [Hm23 H23]. split; [by eapply same_markup_trans|].
  destruct H23 as [->|H23]; [done|].
  right. intros Hu. apply H23. by eapply same_markup_unique.
Qed.

Lemma written_or_left_activate c v :
  written_or_left c (snd (activateTabValueInContainer c v)).
Proof.
  destruct (value_present_dec v c) as [Hv|Hv].
  - rewrite (activate_present c v Hv). simpl. split.
    + apply same_markup_activated.
    + right. apply activated_invariant.
  - rewrite (activate_not_present c v Hv). apply written_or_left_refl.
Qed.

Lemma writes_establish_refl s : writes_establish s s.
Proof. apply Forall_Forall2_diag, Forall_forall. intros c _. apply written_or_left_refl. Qed.

Lemma writes_establish_trans s1 s2 s3 :
  writes_establish s1 s2 → writes_establish s2 s3 → writes_establish s1 s3.
Proof.
  unfold writes_establish. intros H12 H23.
  eapply Forall2_trans; [|exact H12|exact H23].
  apply written_or_left_trans.
Qed.

Lemma writes_establish_activation s f :
  activation_step f → writes_establish s (set_page (f <$> page s) s).
Proof.
  intros Hf. unfold writes_establish. simpl. apply Forall2_fmap_r.
  apply Forall_Forall2_diag, Forall_forall. intros c _. unfold compose.
  destruct (Hf c) as [Heq|[v Heq]]; rewrite Heq.
  - apply written_or_left_refl.
  - apply written_or_left_activate.
Qed.

Lemma writes_establish_same_page s s' : page s' = page s → writes_establish s s'.
Proof. intros H. unfold writes_establish. rewrite H. apply writes_establish_refl. Qed.

Lemma writes_establish_focus s e : writes_establish s (set_active_element e s).
Proof. by apply writes_establish_same_page. Qed.

Lemma writes_establish_alter s container v :
  writes_establish s
    (set_page (alter (λ c, snd (activateTabValueInContainer c v))
                     container (page s)) s).
Proof.
  unfold writes_establish. simpl.
  apply Forall2_same_length_lookup_2; [by rewrite length_alter|].
  intros i c c' Hc Hc'. rewrite list_lookup_alter in Hc'.
  destruct (decide (container = i)) as [->|Hne].
  - rewrite Hc in Hc'. simpl in Hc'. injection Hc' as <-.
    apply written_or_left_activate.
  - rewrite Hc in Hc'. injection Hc' as <-. apply written_or_left_refl.
Qed.

Lemma writes_establish_run op s :
  plain_page (page s) → plain_operation op → writes_establish s (run op s).
Proof.
  intros Hplain Hop.
  apply (on_plain_run writes_establish writes_establish_refl writes_establish_trans
           writes_establish_activation writes_establish_focus op s
           writes_establish_same_page writes_establish_alter Hop Hplain).
Qed.

(** On a page of plain identifiers a group with unique tab values satisfies
    the invariant after any operation, whatever the markup had set, unless
    the operation left the group exactly as it was. *)
Lemma operations_establish_invariant op s i c c' :
  plain_page (page s) → plain_operation op →
  page s !! i = Some c →
  page (run op s) !! i = Some c' →
  unique_tab_values c →
  c' = c ∨ group_invariant c'.
Proof.
  intros Hplain Hop Hc Hc' Hu.
  pose proof (writes_establish_run op s Hplain Hop) as Hrun.
  destruct (Forall2_lookup_lr _ _ _ _ _ _ Hrun Hc Hc') as [_ [->|Hinv]].
  - by left.
  - right. by apply Hinv.
Qed.

(** * Further properties of the script *)

(** ** What a successful activation leaves behind *)

(** X1: after a successful activation the active triggers are exactly the
    triggers that carry the value, and the active panels are exactly the
    panels that carry it, so there are as many of each as the markup has
    triggers and panels with the value; the triggers with the value are
    selected and tab stops, every other trigger, one without a value
    included, is at rest; and the markup of the group is as it was. *)
Theorem activate_marks_the_value (c : Container) (v : string) :
  value_present v c →
  same_markup c (snd (activateTabValueInContainer c v)) ∧
  Forall (λ b, (button_is_active b = true ↔ button_value b = Some v) ∧
               (button_aria_selected b = Some "true" ↔ button_value b = Some v) ∧
               (button_tabindex b = Some "0" ↔ button_value b = Some v) ∧
               (button_value b ≠ Some v → button_at_rest b))
         (tab_buttons (snd (activateTabValueInContainer c v))) ∧
  Forall (λ p, panel_is_active p = true ↔ panel_value p = Some v)
         (tab_panels (snd (activateTabValueInContainer c v))) ∧
  length (filter (λ b, button_is_active b = true)
            (tab_buttons (snd (activateTabValueInContainer c v))))
  = length (filter (λ b, button_value b = Some v) (tab_buttons c)) ∧
  length (filter (λ p, panel_is_active p = true)
            (tab_panels (snd (activateTabValueInContainer c v))))
  = length (filter (λ p, panel_value p = Some v) (tab_panels c)).
Proof.
  intros Hv. rewrite (activate_present c v Hv). simpl snd.
  split; [apply same_markup_activated|].
  destruct (showing_activated c v) as [Hbuttons Hpanels].
  split; [|split; [exact Hpanels|]].
  - eapply Forall_impl; [exact Hbuttons|]. intros b Hb. simpl in Hb.
    destruct (decide (button_value b = Some v)) as [Hb'|Hb'].
    + destruct Hb as (? & ? & ?). done.
    + destruct Hb as (Hactive & Hselected & Hindex).
      rewrite Hactive, Hselected, Hindex. repeat split; try done.
  - rewrite tab_buttons_activated, tab_panels_activated.
    by rewrite filter_active_buttons, filter_active_panels, !length_fmap.
Qed.

(** A trigger whose panel is missing: the trigger becomes the active one, and
    no panel is active. *)
Lemma activate_marks_the_value_witness :
  Forall (λ b, (button_is_active b = true ↔ button_value b = Some "rust") ∧
               (button_aria_selected b = Some "true" ↔ button_value b = Some "rust") ∧
               (button_tabindex b = Some "0" ↔ button_value b = Some "rust") ∧
               (button_value b ≠ Some "rust" → button_at_rest b))
         (tab_buttons (snd (activateTabValueInContainer orphan_trigger_group "rust"))) ∧
  length (filter (λ b, button_is_active b = true)
            (tab_buttons (snd (activateTabValueInContainer orphan_trigger_group "rust"))))
  = 1 ∧
  length (filter (λ p, panel_is_active p = true)
            (tab_panels (snd (activateTabValueInContainer orphan_trigger_group "rust"))))
  = 0.
Proof.
  destruct (activate_marks_the_value orphan_trigger_group "rust")
    as (_ & Hbuttons & _ & Hb & Hp).
  - exists (trigger "rust" false). split; [|done]. simpl. apply list_elem_of_here.
  - split; [exact Hbuttons|]. split; [exact Hb|exact Hp].
Defined.

Lemma activate_button_by_value w (l : list TabButton) :
  activate_button w <$> l
  = (λ x, mkTabButton x (strict_equals x w)
            (Some (if strict_equals x w then "true" else "false"))
            (Some (if strict_equals x w then "0" else "-1")))
    <$> (button_value <$> l).
Proof. by rewrite <- list_fmap_compose. Qed.

Lemma activate_panel_by_value w (l : list TabPanel) :
  activate_panel w <$> l
  = (λ x, mkTabPanel x (strict_equals x w)) <$> (panel_value <$> l).
Proof. by rewrite <- list_fmap_compose. Qed.

Lemma activated_same_markup c c' w :
  same_markup c c' → activated c' w = activated c w.
Proof.
  intros (Hid & Hb & Hp). unfold activated, getLanguageTabButtons, getLanguageTabPanels.
  rewrite !activate_button_by_value, !activate_panel_by_value.
  by rewrite Hid, Hb, Hp.
Qed.

Lemma value_present_values v c :
  value_present v c ↔ Some v ∈ button_value <$> tab_buttons c.
Proof.
  unfold value_present. rewrite list_elem_of_fmap. split.
  - intros (b & Hb & Hv). by exists b.
  - intros (b & Hv & Hb). by exists b.
Qed.

Lemma value_present_same_markup v c c' :
  same_markup c c' → value_present v c → value_present v c'.
Proof.
  intros (_ & Hb & _). rewrite !value_present_values. by rewrite Hb.
Qed.

(** X2: a successful activation forgets the flags and attributes it finds: two
    containers with the same identifier and the same trigger and panel values
    are left in the same state. *)
Theorem activate_depends_on_markup_only (c c' : Container) (w : string) :
  same_markup c c' →
  value_present w c →
  activateTabValueInContainer c' w = activateTabValueInContainer c w.
Proof.
  intros Hm Hw.
  rewrite (activate_present c w Hw).
  rewrite (activate_present c' w (value_present_same_markup w c c' Hm Hw)).
  by rewrite (activated_same_markup c c' w Hm).
Qed.

Lemma activate_depends_on_markup_only_witness :
  activateTabValueInContainer (activated rust_group "python") "typescript"
  = activateTabValueInContainer rust_group "typescript".
Proof.
  apply (activate_depends_on_markup_only rust_group (activated rust_group "python")).
  - apply same_markup_activated.
  - exists (trigger "typescript" false). split; [|done]. simpl.
    apply list_elem_of_further, list_elem_of_further, list_elem_of_here.
Defined.

(** ** What no operation touches *)

Lemma keeps_markup_refl s : keeps_markup s s.
Proof. apply keeps_markup_refl_list. Qed.

Lemma keeps_markup_trans s1 s2 s3 :
  keeps_markup s1 s2 → keeps_markup s2 s3 → keeps_markup s1 s3.
Proof.
  unfold keeps_markup. intros H12 H23.
  eapply Forall2_trans; [|exact H12|exact H23]. apply same_markup_trans.
Qed.

Lemma same_markup_activate c v :
  same_markup c (snd (activateTabValueInContainer c v)).
Proof.
  unfold activateTabValueInContainer. destruct (negb _); simpl; [done|].
  apply same_markup_activated.
Qed.

Lemma keeps_markup_activation s f :
  activation_step f → keeps_markup s (set_page (f <$> page s) s).
Proof.
  intros Hf. unfold keeps_markup. simpl. apply Forall2_fmap_r.
  apply Forall_Forall2_diag, Forall_forall. intros c _. unfold compose.
  destruct (Hf c) as [Heq|[v Heq]]; rewrite Heq; [done|].
  apply same_markup_activate.
Qed.

Lemma keeps_markup_elements s v elements :
  keeps_markup s
    (set_page (foldl (λ p e, snd (activateTabValueInElement e v p))
                     (page s) elements) s).
Proof. apply elements_markup. Qed.

Lemma keeps_markup_same_page s s' : page s' = page s → keeps_markup s s'.
Proof. intros H. unfold keeps_markup. rewrite H. apply keeps_markup_refl. Qed.

Lemma keeps_markup_focus s e : keeps_markup s (set_active_element e s).
Proof. by apply keeps_markup_same_page. Qed.

Lemma keeps_markup_alter s container v :
  keeps_markup s
    (set_page (alter (λ c, snd (activateTabValueInContainer c v))
                     container (page s)) s).
Proof.
  unfold keeps_markup. simpl.
  apply Forall2_same_length_lookup_2; [by rewrite length_alter|].
  intros i c c' Hc Hc'. rewrite list_lookup_alter in Hc'.
  destruct (decide (container = i)) as [->|Hne].
  - rewrite Hc in Hc'. simpl in Hc'. injection Hc' as <-.
    apply same_markup_activate.
  - rewrite Hc in Hc'. by injection Hc' as <-.
Qed.

Lemma keeps_markup_run op s : keeps_markup s (run op s).
Proof.
  apply (every_run keeps_markup keeps_markup_refl keeps_markup_trans
           keeps_markup_activation keeps_markup_elements keeps_markup_focus op s
           keeps_markup_same_page keeps_markup_alter).
Qed.

(** X3: no operation adds, removes or reorders groups, triggers or panels, and
    none changes a group identifier or a tab value, also when it throws. *)
Theorem operations_keep_markup (op : Operation) (s : State) :
  Forall2 same_markup (page s) (page (run op s)).
Proof.
  apply keeps_markup_run.
Qed.

(** X4: activations, clicks and keys leave the menu bar, the sync mode and the
    sync toggle as they are; only start-up and the toggle's own click write
    there. *)
Theorem operations_keep_frame (op : Operation) (s : State) :
  op ≠ Initialize → op ≠ ToggleSync → same_frame s (run op s).
Proof.
  intros Hinit Htoggle. destruct op; simpl; try done.
  - repeat split; simpl.
    apply list_eq. intros i. rewrite !list_lookup_fmap, list_lookup_alter.
    destruct (decide (container = i)) as [->|]; [|done].
    destruct (page s !! i); [|done]. simpl. by rewrite group_identifier_activate.
  - apply same_frame_activateTabValueGlobally.
  - apply same_frame_activateTabValueForGroup.
  - apply same_frame_handleTabClick.
  - apply same_frame_handleTabKeyboardNavigation.
Qed.

Lemma operations_keep_frame_witness :
  same_frame synced_state (run (KeyDown (TriggerAt 0 0) "ArrowRight") synced_state).
Proof.
  apply (operations_keep_frame (KeyDown (TriggerAt 0 0) "ArrowRight") synced_state);
    discriminate.
Defined.

(** ** Groups without an identifier *)

Lemma matches_group_anonymous value c :
  group_identifier c = None → matches_group value c = false.
Proof. intros H. unfold matches_group. rewrite H. by apply strict_equals_false. Qed.

Lemma anonymous_untouched_refl s : anonymous_untouched s s.
Proof. by intros i c Hc _. Qed.

Lemma anonymous_untouched_trans s1 s2 s3 :
  anonymous_untouched s1 s2 → anonymous_untouched s2 s3 → anonymous_untouched s1 s3.
Proof. intros H12 H23 i c Hc Hid. apply H23; [|done]. by apply H12. Qed.

Lemma anonymous_untouched_same_page s s' : page s' = page s → anonymous_untouched s s'.
Proof. intros H i c Hc _. by rewrite H. Qed.

Lemma anonymous_untouched_activateTabValueForGroup groupIdentifier v s :
  plain_identifier groupIdentifier = true →
  anonymous_untouched s (final_state (activateTabValueForGroup groupIdentifier v s)).
Proof.
  intros Hplain. rewrite (activateTabValueForGroup_plain _ _ _ Hplain).
  intros i c Hc Hid. simpl. rewrite list_lookup_fmap, Hc. simpl.
  by rewrite (matches_group_anonymous groupIdentifier c Hid).
Qed.

Lemma plain_page_activateTabValueForGroup groupIdentifier v s :
  plain_page (page s) →
  plain_page (page (final_state (activateTabValueForGroup groupIdentifier v s))).
Proof.
  apply same_frame_plain_page, same_frame_activateTabValueForGroup.
Qed.

Lemma plain_page_identifier s c groupIdentifier :
  plain_page (page s) → c ∈ page s → group_identifier c = Some groupIdentifier →
  plain_identifier groupIdentifier = true.
Proof. intros Hplain Hc. by apply (proj1 (Forall_forall _ _) Hplain c Hc). Qed.

Lemma anonymous_untouched_group s c groupIdentifier v :
  c ∈ page s → group_identifier c = Some groupIdentifier →
  on_plain anonymous_untouched s
    (final_state (activateTabValueForGroup groupIdentifier v s)).
Proof.
  intros Hc Hid Hplain. split.
  - apply anonymous_untouched_activateTabValueForGroup.
    by eapply plain_page_identifier.
  - by apply plain_page_activateTabValueForGroup.
Qed.

Lemma anonymous_untouched_initializeLanguageTabs s :
  plain_page (page s) →
  anonymous_untouched s (final_state (initializeLanguageTabs s)).
Proof.
  intros Hplain.
  assert (on_plain anonymous_untouched s (final_state (initializeLanguageTabs s)))
    as H; [|by apply H].
  unfold initializeLanguageTabs.
  apply (preserves_bind (on_plain anonymous_untouched)
           (on_plain_trans _ anonymous_untouched_trans) _
           (λ _, modify createLanguageTabsSyncToggle)).
  - apply preserves_defaults;
      [apply on_plain_refl, anonymous_untouched_refl
      |apply on_plain_trans, anonymous_untouched_trans
      |apply anonymous_untouched_group].
  - intros _ s'. simpl. apply on_plain_same_page.
    + apply page_createLanguageTabsSyncToggle.
    + apply anonymous_untouched_same_page, page_createLanguageTabsSyncToggle.
Qed.

Lemma anonymous_inert_refl s : anonymous_inert s s.
Proof. intros Hoff Hplain. split; [apply anonymous_untouched_refl|done]. Qed.

Lemma anonymous_inert_trans s1 s2 s3 :
  anonymous_inert s1 s2 → anonymous_inert s2 s3 → anonymous_inert s1 s3.
Proof.
  intros H12 H23 Hoff Hplain.
  destruct (H12 Hoff Hplain) as (Hu12 & Hoff2 & Hplain2).
  destruct (H23 Hoff2 Hplain2) as (Hu23 & Hoff3 & Hplain3).
  split; [by eapply anonymous_untouched_trans|done].
Qed.

Lemma anonymous_inert_global s v :
  isGlobalLanguageTabSyncEnabled s = true →
  anonymous_inert s (activateTabValueGlobally v s).
Proof. intros Hon Hoff. by rewrite Hon in Hoff. Qed.

Lemma isGlobalLanguageTabSyncEnabled_activateTabValueForGroup groupIdentifier v s :
  isGlobalLanguageTabSyncEnabled
    (final_state (activateTabValueForGroup groupIdentifier v s))
  = isGlobalLanguageTabSyncEnabled s.
Proof.
  by destruct (same_frame_activateTabValueForGroup groupIdentifier v s)
    as (_ & _ & ? & _).
Qed.

Lemma anonymous_inert_group s c groupIdentifier v :
  c ∈ page s → group_identifier c = Some groupIdentifier →
  anonymous_inert s (final_state (activateTabValueForGroup groupIdentifier v s)).
Proof.
  intros Hc Hid Hoff Hplain.
  destruct (anonymous_untouched_group s c groupIdentifier v Hc Hid Hplain)
    as [Hu Hplain'].
  split; [done|]. split; [|done].
  by rewrite isGlobalLanguageTabSyncEnabled_activateTabValueForGroup.
Qed.

Lemma anonymous_inert_focus s e : anonymous_inert s (set_active_element e s).
Proof.
  intros Hoff Hplain. split; [|done]. by apply anonymous_untouched_same_page.
Qed.

(** X5: on a page of plain identifiers a group without a group identifier is
    inert outside sync mode: start-up, activation of a family with a plain
    identifier, and, while sync mode is off, every click and every key leave
    it exactly as it was. *)
Theorem anonymous_groups_inert (op : Operation) (s : State) (i : nat) (c : Container) :
  plain_page (page s) →
  plain_operation op →
  page s !! i = Some c →
  group_identifier c = None →
  selects_by_family op s →
  page (run op s) !! i = Some c.
Proof.
  intros Hplain Hplainop Hc Hid Hop. destruct op; simpl in *; try done.
  - by apply anonymous_untouched_activateTabValueForGroup.
  - by apply anonymous_untouched_initializeLanguageTabs.
  - by apply (preserves_handleTabClick anonymous_inert anonymous_inert_refl
                anonymous_inert_global anonymous_inert_group target s Hop Hplain).
  - by apply (preserves_handleTabKeyboardNavigation anonymous_inert
                anonymous_inert_refl anonymous_inert_trans anonymous_inert_global
                anonymous_inert_group anonymous_inert_focus target key s Hop Hplain).
Qed.

Lemma two_group_markup_plain : plain_page (page (load two_group_markup)).
Proof.
  apply Forall_cons. split; [by intros groupIdentifier [= <-]|].
  apply Forall_cons. split; [done|apply Forall_nil_2].
Qed.

Lemma anonymous_groups_inert_witness :
  page (run Initialize (load two_group_markup)) !! 1 = Some anonymous_python_group.
Proof.
  apply (anonymous_groups_inert Initialize (load two_group_markup) 1
           anonymous_python_group); try done.
  apply two_group_markup_plain.
Defined.

(** ** Activation of a family *)

Lemma family_activated_plain groupIdentifier v s :
  plain_identifier groupIdentifier = true →
  family_activated groupIdentifier v s
    (final_state (activateTabValueForGroup groupIdentifier v s)).
Proof.
  intros Hplain. split; [|split].
  - apply same_frame_activateTabValueForGroup.
  - apply active_element_activateTabValueForGroup.
  - intros i G HG. rewrite (activateTabValueForGroup_plain _ _ _ Hplain).
    simpl. rewrite list_lookup_fmap, HG. simpl. eexists. split; [done|].
    unfold matches_group. split.
    + intros Hid Hv. apply strict_equals_true in Hid. rewrite Hid.
      rewrite (activate_present G v Hv). apply showing_activated.
    + intros [Hid|Hv].
      * apply strict_equals_false in Hid. by rewrite Hid.
      * rewrite (activate_not_present G v Hv). by destruct (strict_equals _ _).
Qed.

(** X6: with a plain identifier [activateTabValueForGroup] returns; every group
    of the family that has a trigger for the value shows the value, and every
    other group, the menu bar, the sync mode and the focus are as before. *)
Theorem activateTabValueForGroup_family (groupIdentifier v : string) (s : State) :
  plain_identifier groupIdentifier = true →
  ∃ s', activateTabValueForGroup groupIdentifier v s = Returned tt s' ∧
        family_activated groupIdentifier v s s'.
Proof.
  intros Hplain.
  pose proof (family_activated_plain groupIdentifier v s Hplain) as Hfamily.
  rewrite (activateTabValueForGroup_plain _ _ _ Hplain) in *.
  eexists. split; [done|exact Hfamily].
Qed.

Lemma activateTabValueForGroup_family_witness :
  ∃ s', activateTabValueForGroup "lang" "python" two_family_state = Returned tt s' ∧
        family_activated "lang" "python" two_family_state s'.
Proof. apply (activateTabValueForGroup_family "lang" "python" two_family_state). done. Defined.

(** X7: outside sync mode a click on a trigger with a non-empty value, in a
    group with a plain non-empty identifier, returns and activates the value
    in the family of the group: the group of the trigger and every other group
    of the family with a trigger for the value show it, and all other groups
    are as before. *)
Theorem click_activates_family
    (s : State) (container i : nat) (c : Container) (b : TabButton)
    (groupIdentifier v : string) :
  isGlobalLanguageTabSyncEnabled s = false →
  page s !! container = Some c →
  tab_buttons c !! i = Some b →
  group_identifier c = Some groupIdentifier → groupIdentifier ≠ EmptyString →
  plain_identifier groupIdentifier = true →
  button_value b = Some v → v ≠ EmptyString →
  ∃ s' c', handleTabClick (TriggerAt container i) s = Returned tt s' ∧
           family_activated groupIdentifier v s s' ∧
           page s' !! container = Some c' ∧ showing v c'.
Proof.
  intros Hoff Hc Hb Hid Hidne Hplain Hv Hvne.
  rewrite (handleTabClick_resolved container i c b groupIdentifier v s) by done.
  rewrite Hoff.
  pose proof (family_activated_plain groupIdentifier v s Hplain) as Hfamily.
  rewrite (activateTabValueForGroup_plain _ _ _ Hplain) in *. simpl in Hfamily.
  destruct Hfamily as (Hframe & Hfocus & Hgroups).
  destruct (Hgroups container c Hc) as (c' & Hc' & Hshow & _).
  eexists. exists c'. split; [done|]. split; [done|]. split; [done|].
  apply Hshow; [done|]. exists b. split; [|done].
  apply list_elem_of_lookup. by exists i.
Qed.

Lemma click_activates_family_witness :
  ∃ s' c', handleTabClick (TriggerAt 0 1) two_family_state = Returned tt s' ∧
           family_activated "lang" "python" two_family_state s' ∧
           page s' !! 0 = Some c' ∧ showing "python" c'.
Proof.
  apply (click_activates_family two_family_state 0 1 rust_group
           (trigger "python" false) "lang" "python"); done.
Defined.

(** ** Clicking twice *)

Lemma activate_twice c v :
  snd (activateTabValueInContainer (snd (activateTabValueInContainer c v)) v)
  = snd (activateTabValueInContainer c v).
Proof.
  destruct (value_present_dec v c) as [Hv|Hv].
  - rewrite (activate_present c v Hv). simpl.
    assert (value_present v (activated c v)) as Hv'
      by (by apply value_present_activated).
    by rewrite (activate_present _ v Hv'), activated_twice.
  - rewrite (activate_not_present c v Hv). simpl.
    by rewrite (activate_not_present c v Hv).
Qed.

Lemma state_eq s s' :
  page s = page s' → right_buttons s = right_buttons s' →
  left_buttons s = left_buttons s' → active_element s = active_element s' →
  isGlobalLanguageTabSyncEnabled s = isGlobalLanguageTabSyncEnabled s' →
  languageTabsSyncToggleButtonElement s = languageTabsSyncToggleButtonElement s' →
  selector_engine s = selector_engine s' →
  s = s'.
Proof. destruct s, s'. simpl. by intros -> -> -> -> -> -> ->. Qed.

Lemma activateTabValueGlobally_twice v s :
  activateTabValueGlobally v (activateTabValueGlobally v s)
  = activateTabValueGlobally v s.
Proof.
  apply state_eq; try done.
  rewrite !page_activateTabValueGlobally, <- list_fmap_compose.
  apply list_fmap_ext. intros i c _. simpl. apply activate_twice.
Qed.

Lemma activateTabValueForGroup_twice groupIdentifier v s :
  plain_identifier groupIdentifier = true →
  final_state (activateTabValueForGroup groupIdentifier v
                 (final_state (activateTabValueForGroup groupIdentifier v s)))
  = final_state (activateTabValueForGroup groupIdentifier v s).
Proof.
  intros Hplain. rewrite !(activateTabValueForGroup_plain _ _ _ Hplain).
  apply state_eq; try done. simpl. rewrite <- list_fmap_compose.
  apply list_fmap_ext. intros i c _. simpl. unfold matches_group.
  destruct (strict_equals (group_identifier c) groupIdentifier) eqn:Hmatch.
  - by rewrite group_identifier_activate, Hmatch, activate_twice.
  - by rewrite Hmatch.
Qed.

Lemma truthy_Some_nonempty x v : truthy x = Some v → x = Some v ∧ v ≠ EmptyString.
Proof.
  destruct x as [w|]; simpl; [|done].
  destruct (bool_decide (w = EmptyString)) eqn:E; [done|].
  intros [= ->]. split; [done|]. by apply bool_decide_eq_false in E.
Qed.

(** A click returns with the state as it was, or it is a click on a trigger
    whose group identifier and value are both there and not empty. *)
Lemma handleTabClick_cases target s :
  handleTabClick target s = Returned tt s ∨
  ∃ container i c b groupIdentifier v,
    target = TriggerAt container i ∧
    page s !! container = Some c ∧ tab_buttons c !! i = Some b ∧
    group_identifier c = Some groupIdentifier ∧ groupIdentifier ≠ EmptyString ∧
    button_value b = Some v ∧ v ≠ EmptyString.
Proof.
  destruct target as [container i|value|]; [|by left..].
  unfold handleTabClick. simpl.
  destruct (page s !! container) as [c|] eqn:Hc; [|by left]. simpl.
  unfold getLanguageTabButtons.
  destruct (tab_buttons c !! i) as [b|] eqn:Hb; [|by left]. simpl.
  destruct (truthy (group_identifier c)) as [groupIdentifier|] eqn:Hid; [|by left].
  apply truthy_Some_nonempty in Hid as [Hid Hidne].
  destruct (truthy (button_value b)) as [v|] eqn:Hv; [|by left].
  apply truthy_Some_nonempty in Hv as [Hv Hvne].
  right. by exists container, i, c, b, groupIdentifier, v.
Qed.

Lemma same_markup_lookup_button c c' i b :
  same_markup c c' → tab_buttons c !! i = Some b →
  ∃ b', tab_buttons c' !! i = Some b' ∧ button_value b' = button_value b.
Proof.
  intros (_ & Hvalues & _) Hb.
  assert ((button_value <$> tab_buttons c') !! i = Some (button_value b)) as Hi
    by (by rewrite Hvalues, list_lookup_fmap, Hb).
  rewrite list_lookup_fmap in Hi.
  destruct (tab_buttons c' !! i) as [b'|]; [|done].
  exists b'. split; [done|]. by injection Hi.
Qed.

(** X8: in sync mode, and outside it on a page of plain identifiers, a second
    click on the same trigger changes nothing: the state after two clicks is
    the state after one. *)
Theorem click_idempotent (target : EventTarget) (s : State) :
  isGlobalLanguageTabSyncEnabled s = true ∨ plain_page (page s) →
  final_state (handleTabClick target (final_state (handleTabClick target s)))
  = final_state (handleTabClick target s).
Proof.
  intros Hmode.
  destruct (handleTabClick_cases target s)
    as [Hsame|(container & i & c & b & groupIdentifier & v & -> & Hc & Hb &
               Hid & Hidne & Hv & Hvne)].
  { rewrite Hsame. simpl. by rewrite Hsame. }
  pose proof (keeps_markup_run (Click (TriggerAt container i)) s) as Hrun.
  pose proof (same_frame_handleTabClick (TriggerAt container i) s)
    as (_ & _ & Hflag & _).
  simpl in Hrun. set (s' := final_state (handleTabClick (TriggerAt container i) s)) in *.
  destruct (Forall2_lookup_l _ _ _ _ _ Hrun Hc) as (c' & Hc' & Hmarkup).
  destruct (same_markup_lookup_button c c' i b Hmarkup Hb) as (b' & Hb' & Hv').
  assert (group_identifier c' = Some groupIdentifier) as Hid'.
  { destruct Hmarkup as (Heq & _). by rewrite Heq. }
  rewrite (handleTabClick_resolved container i c' b' groupIdentifier v s')
    by (try done; by rewrite Hv').
  rewrite Hflag. unfold s'.
  rewrite (handleTabClick_resolved container i c b groupIdentifier v s) by done.
  destruct (isGlobalLanguageTabSyncEnabled s) eqn:Hsync; simpl.
  - apply activateTabValueGlobally_twice.
  - destruct Hmode as [?|Hplain]; [done|].
    apply activateTabValueForGroup_twice.
    apply (plain_page_identifier s c); [done| |done].
    apply list_elem_of_lookup. by exists container.
Qed.

Lemma click_idempotent_witness :
  final_state (handleTabClick (TriggerAt 0 1)
                 (final_state (handleTabClick (TriggerAt 0 1) two_family_state)))
  = final_state (handleTabClick (TriggerAt 0 1) two_family_state).
Proof.
  apply (click_idempotent (TriggerAt 0 1) two_family_state).
  right. apply two_family_state_plain.
Defined.

(** ** Sync mode and the selector *)

(** X9: in sync mode no click and no key throws, whatever the group identifiers
    on the page are: the group selector is not used. *)
Theorem sync_mode_never_throws (target : EventTarget) (key : string) (s : State) :
  isGlobalLanguageTabSyncEnabled s = true →
  has_thrown (handleTabClick target s) = false ∧
  has_thrown (handleTabKeyboardNavigation target key s) = false.
Proof.
  intros Hon.
  assert (∀ t s0, isGlobalLanguageTabSyncEnabled s0 = true →
                  has_thrown (handleTabClick t s0) = false) as Hclick.
  { intros t s0 Hs0. unfold handleTabClick.
    destruct (currentTarget s0 t) as [tabButton|]; [|done].
    destruct (truthy _) as [groupIdentifier|]; [|done].
    destruct (truthy _) as [selectedTabValue|]; [|done].
    by rewrite Hs0. }
  split; [by apply Hclick|]. apply handleTabKeyboardNavigation_returns.
Qed.

Lemma sync_mode_never_throws_witness :
  has_thrown (handleTabClick (TriggerAt 0 1)
                (set_sync_enabled true (load quoted_markup))) = false ∧
  has_thrown (handleTabKeyboardNavigation (TriggerAt 0 1) "ArrowLeft"
                (set_sync_enabled true (load quoted_markup))) = false.
Proof.
  apply (sync_mode_never_throws (TriggerAt 0 1) "ArrowLeft"
           (set_sync_enabled true (load quoted_markup))).
  reflexivity.
Defined.

(** ** There and back with the arrow keys *)

Lemma next_index_right_left (i n : Z) :
  (0 ≤ i < n)%Z →
  next_index "ArrowLeft" (next_index "ArrowRight" i n) n = i.
Proof.
  intros Hi. unfold next_index. simpl.
  rewrite (Z.rem_mod_nonneg (i + 1) n) by lia.
  destruct (decide (i + 1 = n)%Z) as [Heq|Hne].
  - rewrite Heq, Z_mod_same_full. rewrite Z.rem_mod_nonneg by lia.
    rewrite Z.mod_small; lia.
  - rewrite (Z.mod_small (i + 1) n) by lia. rewrite Z.rem_mod_nonneg by lia.
    replace (i + 1 - 1 + n)%Z with (i + 1 * n)%Z by lia.
    rewrite Z.mod_add by lia. rewrite Z.mod_small; lia.
Qed.

Lemma next_index_left_right (i n : Z) :
  (0 ≤ i < n)%Z →
  next_index "ArrowRight" (next_index "ArrowLeft" i n) n = i.
Proof.
  intros Hi. unfold next_index. simpl.
  rewrite (Z.rem_mod_nonneg (i - 1 + n) n) by lia.
  destruct (decide (i = 0)%Z) as [->|Hne].
  - replace (0 - 1 + n)%Z with (n - 1)%Z by lia.
    rewrite (Z.mod_small (n - 1) n) by lia. rewrite Z.rem_mod_nonneg by lia.
    replace (n - 1 + 1)%Z with n by lia. by rewrite Z_mod_same_full.
  - replace (i - 1 + n)%Z with (i - 1 + 1 * n)%Z by lia.
    rewrite Z.mod_add by lia. rewrite (Z.mod_small (i - 1) n) by lia.
    rewrite Z.rem_mod_nonneg by lia. rewrite Z.mod_small; lia.
Qed.

Lemma next_index_range key (i n : Z) :
  (0 ≤ i < n)%Z → key = "ArrowRight" ∨ key = "ArrowLeft" →
  (0 ≤ next_index key i n < n)%Z.
Proof.
  intros Hi [-> | ->]; unfold next_index; simpl;
    rewrite Z.rem_mod_nonneg by lia; apply Z.mod_pos_bound; lia.
Qed.

Lemma same_markup_button_count c c' :
  same_markup c c' → length (tab_buttons c') = length (tab_buttons c).
Proof.
  intros (_ & Hvalues & _).
  by rewrite <- (length_fmap button_value (tab_buttons c')), Hvalues, length_fmap.
Qed.

(** The focus after an arrow key on a trigger of a group, with the group as
    the key leaves it. *)
Lemma arrow_key_focus s container i c key :
  page s !! container = Some c →
  i < length (tab_buttons c) →
  key = "ArrowRight" ∨ key = "ArrowLeft" →
  let next := Z.to_nat (next_index key (Z.of_nat i) (Z.of_nat (length (tab_buttons c)))) in
  let s' := final_state (handleTabKeyboardNavigation (TriggerAt container i) key s) in
  next < length (tab_buttons c) ∧
  active_element s' = Some (container, next) ∧
  ∃ c', page s' !! container = Some c' ∧
        length (tab_buttons c') = length (tab_buttons c).
Proof.
  intros Hc Hi Hkey next s'.
  pose proof (next_index_range key (Z.of_nat i) (Z.of_nat (length (tab_buttons c)))
                ltac:(lia) Hkey) as Hrange.
  assert (next < length (tab_buttons c)) as Hnext by (unfold next; lia).
  split; [done|]. split.
  - unfold s'.
    rewrite (handleTabKeyboardNavigation_moves s container i c key next Hc Hi)
      by (try done; unfold next; lia).
    simpl. by rewrite active_element_handleTabClick.
  - pose proof (keeps_markup_run (KeyDown (TriggerAt container i) key) s) as Hrun.
    destruct (Forall2_lookup_l _ _ _ _ _ Hrun Hc) as (c' & Hc' & Hmarkup).
    exists c'. split; [done|]. by apply same_markup_button_count.
Qed.

(** X10: ArrowRight followed by ArrowLeft on the trigger that got the focus, and
    ArrowLeft followed by ArrowRight, bring the focus back to the trigger the
    first key was pressed on. *)
Theorem arrow_keys_round_trip
    (s : State) (container i : nat) (c : Container) (key back : string) :
  page s !! container = Some c →
  i < length (tab_buttons c) →
  (key = "ArrowRight" ∧ back = "ArrowLeft") ∨ (key = "ArrowLeft" ∧ back = "ArrowRight") →
  ∃ next,
    let s1 := final_state (handleTabKeyboardNavigation (TriggerAt container i) key s) in
    active_element s1 = Some (container, next) ∧
    active_element
      (final_state (handleTabKeyboardNavigation (TriggerAt container next) back s1))
    = Some (container, i).
Proof.
  intros Hc Hi Hkeys.
  assert (key = "ArrowRight" ∨ key = "ArrowLeft") as Hkey
    by (destruct Hkeys as [[? _]|[? _]]; [by left|by right]).
  assert (back = "ArrowRight" ∨ back = "ArrowLeft") as Hback
    by (destruct Hkeys as [[_ ?]|[_ ?]]; [by right|by left]).
  destruct (arrow_key_focus s container i c key Hc Hi Hkey)
    as (Hnext & Hfocus & c1 & Hc1 & Hlen).
  eexists. split; [exact Hfocus|].
  assert (Z.to_nat (next_index key (Z.of_nat i) (Z.of_nat (length (tab_buttons c))))
          < length (tab_buttons c1)) as Hnext1 by (by rewrite Hlen).
  destruct (arrow_key_focus _ container _ c1 back Hc1 Hnext1 Hback) as (_ & Hfocus' & _).
  rewrite Hfocus'. f_equal. f_equal. rewrite Hlen.
  assert (0 ≤ Z.of_nat i < Z.of_nat (length (tab_buttons c)))%Z as Hrange by lia.
  pose proof (next_index_range key _ _ Hrange Hkey) as Hrange'.
  rewrite Z2Nat.id by lia.
  destruct Hkeys as [[-> ->]|[-> ->]].
  - rewrite next_index_right_left by done. apply Nat2Z.id.
  - rewrite next_index_left_right by done. apply Nat2Z.id.
Qed.

Lemma arrow_keys_round_trip_witness :
  ∃ next,
    let s1 := final_state (handleTabKeyboardNavigation (TriggerAt 0 2) "ArrowRight"
                             (load two_group_markup)) in
    active_element s1 = Some (0, next) ∧
    active_element
      (final_state (handleTabKeyboardNavigation (TriggerAt 0 next) "ArrowLeft" s1))
    = Some (0, 2).
Proof.
  apply (arrow_keys_round_trip (load two_group_markup) 0 2 rust_group
           "ArrowRight" "ArrowLeft").
  - reflexivity.
  - simpl. lia.
  - by left.
Defined.

(** ** The first active value *)

(** X11: [getFirstActiveTabValue] is the value of the first active trigger of the
    page in page order: [null] when no trigger is active, and also when the
    first active trigger carries no value, whatever later active triggers
    carry. *)
Theorem getFirstActiveTabValue_page_order (s : State) :
  getFirstActiveTabValue s
  = find button_is_active (page_buttons s) ≫= button_value.
Proof.
  unfold getFirstActiveTabValue, getLanguageTabContainerElements, page_buttons.
  apply first_active_value_find.
Qed.

(** ** The click on the sync toggle *)

Lemma syncToggleClick_off s :
  isGlobalLanguageTabSyncEnabled s = true →
  syncToggleClick s
  = updateLanguageTabsSyncToggleButtonState (set_sync_enabled false s).
Proof.
  intros Hon. unfold syncToggleClick. cbv zeta. rewrite Hon. simpl.
  by rewrite sync_enabled_update.
Qed.

(** X12: turning sync mode off writes nothing to the groups: the page, the focus
    and the menu bar are as they were, and a second click turns the mode on
    again. *)
Theorem sync_off_keeps_page (s : State) :
  isGlobalLanguageTabSyncEnabled s = true →
  isGlobalLanguageTabSyncEnabled (syncToggleClick s) = false ∧
  page (syncToggleClick s) = page s ∧
  active_element (syncToggleClick s) = active_element s ∧
  header_items (syncToggleClick s) = header_items s ∧
  isGlobalLanguageTabSyncEnabled (syncToggleClick (syncToggleClick s)) = true.
Proof.
  intros Hon. rewrite (syncToggleClick_off s Hon).
  set (s1 := updateLanguageTabsSyncToggleButtonState _).
  assert (isGlobalLanguageTabSyncEnabled s1 = false) as Hoff
    by (unfold s1; by rewrite sync_enabled_update).
  split; [done|]. split.
  { unfold s1. by rewrite page_updateLanguageTabsSyncToggleButtonState. }
  split; [|split].
  - unfold s1, updateLanguageTabsSyncToggleButtonState. simpl.
    by destruct (languageTabsSyncToggleButtonElement s).
  - unfold s1, updateLanguageTabsSyncToggleButtonState, header_items. simpl.
    by destruct (languageTabsSyncToggleButtonElement s).
  - rewrite (syncToggleClick_on s1 Hoff). cbv zeta.
    destruct (truthy _).
    + by rewrite sync_enabled_activateTabValueGlobally, sync_enabled_update.
    + by rewrite sync_enabled_update.
Qed.

Lemma sync_off_keeps_page_witness :
  page (syncToggleClick synced_state) = page synced_state ∧
  isGlobalLanguageTabSyncEnabled (syncToggleClick synced_state) = false.
Proof.
  destruct (sync_off_keeps_page synced_state) as (Hoff & Hpage & _); [reflexivity|].
  by split.
Defined.

Lemma toggle_element_activateTabValueGlobally v s :
  languageTabsSyncToggleButtonElement (activateTabValueGlobally v s)
  = languageTabsSyncToggleButtonElement s.
Proof. done. Qed.

Lemma classList_toggle_elem token force (l : list string) x :
  x ∈ classList_toggle token force l
  ↔ (x ∈ l ∧ x ≠ token) ∨ (x = token ∧ force = true).
Proof.
  unfold classList_toggle. destruct force.
  - destruct (bool_decide_reflect (token ∈ l)) as [Hin|Hin].
    + split.
      * intros Hx. destruct (decide (x = token)) as [->|Hne]; [by right|by left].
      * intros [[Hx _] | [-> _]]; done.
    + rewrite elem_of_app, list_elem_of_singleton. split.
      * intros [Hx | ->]; [|by right]. left. split; [done|]. by intros ->.
      * intros [[Hx _] | [-> _]]; [by left|by right].
  - rewrite list_elem_of_filter. split.
    + intros [Hne Hx]. by left.
    + intros [[Hx Hne]|[_ ?]]; done.
Qed.

(** X13: a click on the sync toggle flips the mode and makes the toggle mirror
    it: its class list has [is-active] exactly when the new mode is on and
    keeps every other class, [aria-pressed] and the label follow the new mode,
    and the type and title of the toggle stay as they were. *)
Theorem syncToggleClick_mirrors_mode (s : State) (t : SyncToggleButton) :
  languageTabsSyncToggleButtonElement s = Some t →
  let enabled := negb (isGlobalLanguageTabSyncEnabled s) in
  isGlobalLanguageTabSyncEnabled (syncToggleClick s) = enabled ∧
  ∃ t', languageTabsSyncToggleButtonElement (syncToggleClick s) = Some t' ∧
        toggle_type t' = toggle_type t ∧
        toggle_title t' = toggle_title t ∧
        toggle_classList t'
        = classList_toggle "is-active" enabled (toggle_classList t) ∧
        ("is-active" ∈ toggle_classList t' ↔ enabled = true) ∧
        (∀ class, class ≠ "is-active" →
                  class ∈ toggle_classList t' ↔ class ∈ toggle_classList t) ∧
        toggle_aria_pressed t' = Some (if enabled then "true" else "false") ∧
        toggle_textContent t' = sync_label enabled.
Proof.
  intros Ht enabled. unfold syncToggleClick. cbv zeta.
  set (s1 := updateLanguageTabsSyncToggleButtonState _).
  assert (isGlobalLanguageTabSyncEnabled s1 = enabled) as Hflag
    by (unfold s1; by rewrite sync_enabled_update).
  assert (languageTabsSyncToggleButtonElement s1
          = Some {| toggle_type := toggle_type t;
                    toggle_classList :=
                      classList_toggle "is-active" enabled (toggle_classList t);
                    toggle_title := toggle_title t;
                    toggle_aria_pressed := Some (if enabled then "true" else "false");
                    toggle_textContent := sync_label enabled |}) as Htoggle.
  { unfold s1, updateLanguageTabsSyncToggleButtonState. simpl. rewrite Ht.
    reflexivity. }
  set (s2 := if negb (isGlobalLanguageTabSyncEnabled s1) then s1 else _).
  assert (isGlobalLanguageTabSyncEnabled s2 = enabled ∧
          languageTabsSyncToggleButtonElement s2
          = languageTabsSyncToggleButtonElement s1) as [-> ->].
  { unfold s2. destruct (negb (isGlobalLanguageTabSyncEnabled s1)); [done|].
    destruct (truthy (getFirstActiveTabValue s1)); [|done].
    by rewrite sync_enabled_activateTabValueGlobally,
         toggle_element_activateTabValueGlobally. }
  split; [done|]. eexists. split; [exact Htoggle|]. simpl.
  split; [done|]. split; [done|]. split; [done|]. split; [|split; [|done]].
  - rewrite classList_toggle_elem. split.
    + intros [[_ ?]|[_ ?]]; done.
    + intros ->. by right.
  - intros class Hclass. rewrite classList_toggle_elem. split.
    + intros [[? _]|[? _]]; done.
    + intros Hin. by left.
Qed.

(** The first click on the toggle start-up has made: the class list goes from
    [language-tabs-header-toggle] to [language-tabs-header-toggle is-active]. *)
Lemma syncToggleClick_mirrors_mode_witness :
  isGlobalLanguageTabSyncEnabled synced_state = true ∧
  languageTabsSyncToggleButtonElement synced_state
  = Some {| toggle_type := "button";
            toggle_classList := ["language-tabs-header-toggle"; "is-active"];
            toggle_title := "Sync selected language across all tab groups";
            toggle_aria_pressed := Some "true";
            toggle_textContent := "Sync Tabs: On" |}.
Proof.
  destruct (syncToggleClick_mirrors_mode
              (final_state (initializeLanguageTabs (load two_group_markup)))
              {| toggle_type := "button";
                 toggle_classList := ["language-tabs-header-toggle"];
                 toggle_title := "Sync selected language across all tab groups";
                 toggle_aria_pressed := Some "false";
                 toggle_textContent := "Sync Tabs: Off" |} eq_refl)
    as (Hmode & t' & Ht' & Htype & Htitle & Hclasses & _ & _ & Hpressed & Hlabel).
  split; [exact Hmode|]. unfold synced_state. rewrite Ht'.
  destruct t'. simpl in *. by subst.
Defined.

(** ** Where the sync toggle goes *)

(** X14: on a page with two or more groups and plain identifiers, start-up puts
    the sync toggle in front of the children of the right button container
    and leaves the left one alone; only when there is no right container does
    the toggle go in front of the children of the left one. *)
Theorem sync_toggle_placement (m : Markup) :
  plain_page (markup_containers m) →
  2 ≤ length (markup_containers m) →
  ∃ s', initializeLanguageTabs (load m) = Returned tt s' ∧
        match markup_right_buttons m, markup_left_buttons m with
        | Some labels, others =>
            right_buttons s' = Some (SyncToggleRef :: (MenuItem <$> labels)) ∧
            left_buttons s' = menu_items others
        | None, Some labels =>
            right_buttons s' = None ∧
            left_buttons s' = Some (SyncToggleRef :: (MenuItem <$> labels))
        | None, None => right_buttons s' = None ∧ left_buttons s' = None
        end.
Proof.
  intros Hplain Htwo.
  destruct (initializeLanguageTabs_plain (load m) Hplain) as (s1 & Hframe & Hinit).
  exists (createLanguageTabsSyncToggle s1). split; [done|].
  pose proof (same_frame_length _ _ Hframe) as Hlen. simpl in Hlen.
  destruct Hframe as (Hr & Hl & _). simpl in Hr, Hl.
  unfold createLanguageTabsSyncToggle, getLanguageTabContainerElements.
  destruct (Nat.ltb_spec (length (page s1)) 2) as [?|_]; [lia|].
  rewrite Hr, Hl. unfold menu_items.
  destruct (markup_right_buttons m) as [labels|]; [done|].
  by destruct (markup_left_buttons m) as [labels|].
Qed.

Lemma sync_toggle_placement_witness :
  ∃ s', initializeLanguageTabs (load two_group_markup) = Returned tt s' ∧
        right_buttons s' = Some [SyncToggleRef; MenuItem "print"] ∧
        left_buttons s' = Some [MenuItem "sidebar"].
Proof.
  destruct (sync_toggle_placement two_group_markup) as (s' & Hinit & Hplace).
  - unfold plain_page. simpl.
    apply Forall_cons. split; [by intros ? [= <-]|].
    apply Forall_cons. split; [done|apply Forall_nil_2].
  - simpl. lia.
  - exists s'. split; [done|]. exact Hplace.
Defined.

(** ** The defaults of start-up *)

Lemma has_active_tab_activated c v : value_present v c → has_active_tab (activated c v).
Proof.
  intros Hv. exists v. split; [by apply value_present_activated|apply showing_activated].
Qed.

Lemma has_active_tab_activate c v :
  has_active_tab c → has_active_tab (snd (activateTabValueInContainer c v)).
Proof.
  intros Hc. destruct (value_present_dec v c) as [Hv|Hv].
  - rewrite (activate_present c v Hv). by apply has_active_tab_activated.
  - by rewrite (activate_not_present c v Hv).
Qed.

Lemma keeps_active_tab_refl s : keeps_active_tab s s.
Proof. apply Forall_Forall2_diag, Forall_forall. by intros c _. Qed.

Lemma keeps_active_tab_trans s1 s2 s3 :
  keeps_active_tab s1 s2 → keeps_active_tab s2 s3 → keeps_active_tab s1 s3.
Proof.
  unfold keeps_active_tab. intros H12 H23.
  eapply Forall2_trans; [|exact H12|exact H23].
  intros c1 c2 c3 [Hm12 Hk12] [Hm23 Hk23]. split.
  - by eapply same_markup_trans.
  - intros H. by apply Hk23, Hk12.
Qed.

Lemma keeps_active_tab_activation s f :
  activation_step f → keeps_active_tab s (set_page (f <$> page s) s).
Proof.
  intros Hf. unfold keeps_active_tab. simpl. apply Forall2_fmap_r.
  apply Forall_Forall2_diag, Forall_forall. intros c _. unfold compose.
  destruct (Hf c) as [Heq|[v Heq]]; rewrite Heq; [done|].
  split; [apply same_markup_activate|apply has_active_tab_activate].
Qed.

Lemma keeps_active_tab_same_page s s' : page s' = page s → keeps_active_tab s s'.
Proof. intros H. unfold keeps_active_tab. rewrite H. apply keeps_active_tab_refl. Qed.

Lemma same_markup_takes_default c c' :
  same_markup c c' → takes_default c → takes_default c'.
Proof.
  intros Hm ((groupIdentifier & Hid & Hne) & Hsome & Hvalues).
  pose proof (same_markup_button_count c c' Hm) as Hlen.
  destruct Hm as (Hid' & Hb & _). split; [|split].
  - exists groupIdentifier. by rewrite Hid'.
  - intros Hnil. rewrite Hnil in Hlen. by destruct (tab_buttons c).
  - apply (Forall_fmap button_value (λ o, ∃ v, o = Some v ∧ v ≠ EmptyString)).
    rewrite Hb. by apply Forall_fmap.
Qed.

Lemma find_active_elem (l : list TabButton) b :
  find button_is_active l = Some b → b ∈ l.
Proof. intros H. apply list_elem_of_In. by apply find_some in H as [? _]. Qed.

(** [activateDefaultTab] on a group that takes a default leaves that group
    showing one of its values. *)
Lemma activateDefaultTab_settles container c s :
  plain_page (page s) →
  page s !! container = Some c →
  takes_default c →
  ∃ c', page (final_state (activateDefaultTab container s)) !! container = Some c' ∧
        has_active_tab c'.
Proof.
  intros Hplain Hc ((groupIdentifier & Hid & Hne) & Hsome & Hvalues).
  unfold activateDefaultTab. rewrite Hc, Hid, (truthy_nonempty _ Hne).
  unfold getLanguageTabButtons.
  destruct (tab_buttons c) as [|first rest] eqn:Hbuttons; [done|].
  set (defaultTabButton := default first (find button_is_active (first :: rest))).
  assert (defaultTabButton ∈ tab_buttons c) as Hin.
  { rewrite Hbuttons. unfold defaultTabButton.
    destruct (find button_is_active (first :: rest)) as [b|] eqn:Hfind; simpl.
    - by apply find_active_elem.
    - apply list_elem_of_here. }
  rewrite Hbuttons in Hin.
  destruct (proj1 (Forall_forall _ _) Hvalues _ Hin) as (v & Hv & Hvne).
  rewrite Hv, (truthy_nonempty _ Hvne).
  assert (plain_identifier groupIdentifier = true) as Hplainid
    by (by apply (Forall_lookup_1 _ _ _ _ Hplain Hc)).
  rewrite (activateTabValueForGroup_plain _ _ _ Hplainid). simpl.
  rewrite list_lookup_fmap, Hc. simpl. eexists. split; [done|].
  unfold matches_group. apply strict_equals_true in Hid as ->.
  assert (value_present v c) as Hpresent.
  { exists defaultTabButton. rewrite Hbuttons. by split. }
  rewrite (activate_present c v Hpresent). by apply has_active_tab_activated.
Qed.

Lemma defaults_settle l s :
  plain_page (page s) →
  ∃ s', for_each l activateDefaultTab s = Returned tt s' ∧
        same_frame s s' ∧ keeps_active_tab s s' ∧
        ∀ container c, container ∈ l → page s !! container = Some c →
                       takes_default c →
                       ∃ c', page s' !! container = Some c' ∧ has_active_tab c'.
Proof.
  revert s. induction l as [|k l IH]; intros s Hplain.
  - exists s. split; [done|]. split; [done|]. split; [apply keeps_active_tab_refl|].
    intros container c Hin. by apply elem_of_nil in Hin.
  - simpl. unfold mbind, Script_bind.
    pose proof (activateDefaultTab_plain k s Hplain) as Hret.
    pose proof (same_frame_activateDefaultTab k s) as Hframe.
    pose proof (proj1 (on_plain_activateDefaultTab keeps_active_tab
                         keeps_active_tab_refl keeps_active_tab_activation k s Hplain))
      as Hkeeps.
    pose proof (activateDefaultTab_settles k) as Hsettles.
    specialize (Hsettles) with (s := s).
    destruct (activateDefaultTab k s) as [[] s1|e s1]; [|done].
    simpl in Hframe, Hkeeps, Hsettles.
    destruct (IH s1) as (s' & Hs' & Hframe' & Hkeeps' & Hall);
      [by eapply same_frame_plain_page|].
    exists s'. split; [done|]. split; [by eapply same_frame_trans|].
    split; [by eapply keeps_active_tab_trans|].
    intros container c Hin Hc Hdefault.
    destruct (Forall2_lookup_l _ _ _ _ _ Hkeeps Hc) as (c1 & Hc1 & Hm1 & _).
    destruct (decide (container ∈ l)) as [Hl|Hl].
    + apply (Hall container c1 Hl Hc1). by eapply same_markup_takes_default.
    + apply elem_of_cons in Hin as [->|Hin]; [|done].
      destruct (Hsettles c Hplain Hc Hdefault) as (c1' & Hc1' & Hactive).
      rewrite Hc1 in Hc1'. injection Hc1' as <-.
      destruct (Forall2_lookup_l _ _ _ _ _ Hkeeps' Hc1) as (c' & Hc' & _ & Hk).
      exists c'. split; [done|]. by apply Hk.
Qed.

Lemma showing_sole_active_button v c :
  unique_button_values c → value_present v c → showing v c →
  sole_active_button v c.
Proof.
  intros Hnd Hv [Hshow _].
  destruct (unique_key_split button_value (tab_buttons c) v Hnd Hv)
    as (before & b & after & Hsplit & Hb & Hrest).
  exists before, b, after. split; [done|]. split; [done|].
  rewrite Hsplit in Hshow. apply Forall_app in Hshow as [Hbefore Hafter].
  apply Forall_cons in Hafter as [Hthis Hafter].
  rewrite decide_True in Hthis by done. destruct Hthis as (? & ? & ?).
  repeat (split; [done|]).
  apply Forall_app in Hrest as [Hrest1 Hrest2]. apply Forall_app. split.
  - apply Forall_forall. intros x Hx.
    pose proof (proj1 (Forall_forall _ _) Hbefore x Hx) as Hsx.
    pose proof (proj1 (Forall_forall _ _) Hrest1 x Hx) as Hnx. simpl in Hsx.
    by rewrite decide_False in Hsx.
  - apply Forall_forall. intros x Hx.
    pose proof (proj1 (Forall_forall _ _) Hafter x Hx) as Hsx.
    pose proof (proj1 (Forall_forall _ _) Hrest2 x Hx) as Hnx. simpl in Hsx.
    by rewrite decide_False in Hsx.
Qed.

(** X15: on a page of plain identifiers start-up returns and leaves every group
    that has a non-empty identifier, at least one trigger and a non-empty
    value on each trigger showing one of its own values, with the markup of
    the group unchanged; when the trigger values of the group are pairwise
    distinct, exactly one trigger is active and it is the tab stop. *)
Theorem initialize_gives_active_tab (s : State) (i : nat) (c : Container) :
  plain_page (page s) →
  page s !! i = Some c →
  takes_default c →
  ∃ s' c' v,
    initializeLanguageTabs s = Returned tt s' ∧
    page s' !! i = Some c' ∧ same_markup c c' ∧
    value_present v c' ∧ showing v c' ∧
    (unique_button_values c → sole_active_button v c').
Proof.
  intros Hplain Hc Hdefault. unfold initializeLanguageTabs, mbind, Script_bind.
  destruct (defaults_settle (seq 0 (length (getLanguageTabContainerElements s))) s Hplain)
    as (s1 & -> & _ & Hkeeps & Hall).
  destruct (Hall i c) as (c' & Hc' & v & Hv & Hshow); [|done..|].
  { apply elem_of_seq. apply lookup_lt_Some in Hc.
    unfold getLanguageTabContainerElements. lia. }
  destruct (Forall2_lookup_l _ _ _ _ _ Hkeeps Hc) as (c1 & Hc1 & Hm & _).
  rewrite Hc' in Hc1. injection Hc1 as <-.
  exists (createLanguageTabsSyncToggle s1), c', v.
  split; [done|]. rewrite page_createLanguageTabsSyncToggle.
  split; [done|]. split; [done|]. split; [done|]. split; [done|].
  intros Hunique. apply showing_sole_active_button; [|done..].
  destruct Hm as (_ & Hb & _). unfold unique_button_values in *.
  by rewrite omap_fmap_values, Hb, <- omap_fmap_values.
Qed.

Lemma initialize_gives_active_tab_witness :
  ∃ s' c' v,
    initializeLanguageTabs (load {| markup_containers := [unset_group; rust_group];
                                    markup_right_buttons := None;
                                    markup_left_buttons := None;
                                    markup_selector_engine := strict_engine |})
    = Returned tt s' ∧
    page s' !! 0 = Some c' ∧ same_markup unset_group c' ∧
    value_present v c' ∧ showing v c' ∧
    (unique_button_values unset_group → sole_active_button v c').
Proof.
  apply (initialize_gives_active_tab _ 0 unset_group).
  - unfold plain_page. simpl.
    apply Forall_cons. split; [by intros ? [= <-]|].
    apply Forall_cons. split; [by intros ? [= <-]|apply Forall_nil_2].
  - reflexivity.
  - split; [by exists "lang"|]. split; [done|]. simpl.
    apply Forall_cons. split; [by exists "rust"|].
    apply Forall_cons. split; [by exists "python"|apply Forall_nil_2].
Defined.

(** ** Identifiers that break the selector *)

Lemma filter_code_points_cons a rest :
  Ascii.eqb a CR = false → Ascii.eqb a FF = false → Ascii.eqb a NUL = false →
  filter_code_points (String a rest) = String a (filter_code_points rest).
Proof. intros Hcr Hff Hnul. simpl. by rewrite Hcr, Hff, Hnul. Qed.

(** What comes after a quotation mark that is followed by a code point that
    cannot come after an attribute value, once the input is preprocessed. *)
Lemma filter_code_points_after_value (x : string) :
  match x with
  | EmptyString => true
  | String b _ => negb (may_follow_value b || Ascii.eqb b CR || Ascii.eqb b FF)
  end = true →
  ∃ a rest, filter_code_points (group_selector_tail x) = String a rest ∧
            may_follow_value a = false.
Proof.
  unfold group_selector_tail. destruct x as [|b x]; intros H.
  { rewrite append_nil_l. by eexists _, _. }
  apply negb_true_iff in H. apply orb_false_iff in H as [H Hff].
  apply orb_false_iff in H as [Hfollow Hcr].
  rewrite append_cons. simpl. rewrite Hcr, Hff.
  destruct (Ascii.eqb b NUL).
  - eexists _, _. split; [reflexivity|done].
  - by eexists _, _.
Qed.

Lemma consume_string_token_breaks (groupIdentifier value : string) :
  breaks_selector groupIdentifier = true →
  match consume_string_token Plain value
          (filter_code_points (group_selector_tail groupIdentifier)) with
  | BadString => True
  | GoodString _ rest => ∃ a r, rest = String a r ∧ may_follow_value a = false
  end.
Proof.
  revert value. induction groupIdentifier as [|a x IH]; intros value Hbreaks.
  { discriminate Hbreaks. }
  simpl in Hbreaks. unfold group_selector_tail in *. rewrite append_cons.
  destruct (Ascii.eqb a QUOTATION_MARK) eqn:Hq.
  { apply Ascii.eqb_eq in Hq as ->.
    rewrite filter_code_points_cons by done. simpl.
    by apply filter_code_points_after_value. }
  destruct (Ascii.eqb a LF) eqn:Hlf.
  { apply Ascii.eqb_eq in Hlf as ->. by rewrite filter_code_points_cons by done. }
  destruct (Ascii.eqb a CR) eqn:Hcr.
  { apply Ascii.eqb_eq in Hcr as ->. simpl. done. }
  destruct (Ascii.eqb a FF) eqn:Hff.
  { apply Ascii.eqb_eq in Hff as ->. simpl. done. }
  simpl in Hbreaks.
  destruct (Ascii.eqb a REVERSE_SOLIDUS) eqn:Hrs; [done|].
  destruct (Ascii.eqb a NUL) eqn:Hnul; [done|]. simpl in Hbreaks.
  rewrite filter_code_points_cons by done. simpl.
  unfold is_newline. rewrite Hq, Hlf, Hrs. by apply IH.
Qed.

Lemma group_selector_value_breaks groupIdentifier :
  breaks_selector groupIdentifier = true →
  group_selector_value groupIdentifier = Malformed.
Proof.
  intros Hbreaks. unfold group_selector_value.
  pose proof (consume_string_token_breaks groupIdentifier EmptyString Hbreaks)
    as Htoken.
  destruct (consume_string_token _ _ _) as [value rest|]; [|done].
  destruct Htoken as (a & r & -> & Hfollow).
  rewrite Hfollow. rewrite bool_decide_eq_false_2; [done|].
  intros [= -> _]. discriminate Hfollow.
Qed.

(** X16: an identifier in which a line break, or a quotation mark that ends the
    identifier or is followed by a code point that cannot come after an
    attribute value, comes before any reverse solidus and any NUL makes
    [activateTabValueForGroup] throw, whatever the selector engine of the
    browser accepts beyond the group selector, with nothing written to the
    page. *)
Theorem broken_selector_throws (groupIdentifier v : string) (s : State) :
  breaks_selector groupIdentifier = true →
  activateTabValueForGroup groupIdentifier v s = Threw SyntaxError s.
Proof.
  intros Hbreaks. unfold activateTabValueForGroup.
  by rewrite (group_selector_value_breaks _ Hbreaks).
Qed.

Lemma broken_selector_throws_witness :
  activateTabValueForGroup ("it" +:+ String QUOTATION_MARK "em") "x"
    (load two_group_markup)
  = Threw SyntaxError (load two_group_markup).
Proof.
  apply (broken_selector_throws ("it" +:+ String QUOTATION_MARK "em") "x"
           (load two_group_markup)); reflexivity.
Defined.

(** ** Groups of one family after start-up *)

Lemma value_present_same_markup_iff v c c' :
  same_markup c c' → value_present v c ↔ value_present v c'.
Proof. intros (_ & Hb & _). rewrite !value_present_values. by rewrite Hb. Qed.

Lemma same_tabs_same_markup c1 c2 c1' c2' :
  same_markup c1 c1' → same_markup c2 c2' → same_tabs c1 c2 → same_tabs c1' c2'.
Proof.
  intros Hm1 Hm2 [Hid Hvalues]. split.
  - destruct Hm1 as (-> & _), Hm2 as (-> & _). done.
  - intros v. rewrite <- (value_present_same_markup_iff v c1 c1' Hm1).
    rewrite <- (value_present_same_markup_iff v c2 c2' Hm2). apply Hvalues.
Qed.

Lemma same_markup_family_step value w c : same_markup c (family_step value w c).
Proof.
  unfold family_step. destruct (matches_group value c); [|done].
  apply same_markup_activate.
Qed.

Lemma matches_group_same_tabs value c1 c2 :
  same_tabs c1 c2 → matches_group value c1 = matches_group value c2.
Proof. intros [Hid _]. unfold matches_group. by rewrite Hid. Qed.

Lemma family_step_keeps_alike value w c1 c2 :
  same_tabs c1 c2 → show_alike c1 c2 →
  show_alike (family_step value w c1) (family_step value w c2).
Proof.
  intros Htabs Halike. unfold family_step.
  rewrite <- (matches_group_same_tabs value c1 c2 Htabs).
  destruct (matches_group value c1); [|done].
  destruct (value_present_dec w c1) as [Hw|Hw].
  - assert (value_present w c2) as Hw2 by (by apply Htabs).
    rewrite (activate_present c1 w Hw), (activate_present c2 w Hw2). simpl.
    exists w. split; [by apply value_present_activated|].
    split; apply showing_activated.
  - assert (¬ value_present w c2) as Hw2 by (intros H; by apply Hw, Htabs).
    by rewrite (activate_not_present c1 w Hw), (activate_not_present c2 w Hw2).
Qed.

Lemma family_step_makes_alike groupIdentifier w c1 c2 :
  same_tabs c1 c2 → group_identifier c1 = Some groupIdentifier →
  value_present w c1 →
  show_alike (family_step groupIdentifier w c1) (family_step groupIdentifier w c2).
Proof.
  intros Htabs Hid Hw. unfold family_step.
  rewrite <- (matches_group_same_tabs groupIdentifier c1 c2 Htabs).
  unfold matches_group. apply strict_equals_true in Hid as ->.
  assert (value_present w c2) as Hw2 by (by apply Htabs).
  rewrite (activate_present c1 w Hw), (activate_present c2 w Hw2). simpl.
  exists w. split; [by apply value_present_activated|].
  split; apply showing_activated.
Qed.

(** On a page of plain identifiers [activateDefaultTab] returns, with the
    state as it was or after a pass of [activateTabValueForGroup]; for a group
    that takes a default it is a pass for the family of the group and a value
    of the group. *)
Lemma activateDefaultTab_pass container s :
  plain_page (page s) →
  (activateDefaultTab container s = Returned tt s ∧
   ∀ c, page s !! container = Some c → ¬ takes_default c) ∨
  ∃ value w,
    activateDefaultTab container s
    = Returned tt (set_page (family_step value w <$> page s) s) ∧
    ∀ c, page s !! container = Some c → takes_default c →
         group_identifier c = Some value ∧ value_present w c.
Proof.
  intros Hplain. unfold activateDefaultTab.
  destruct (page s !! container) as [c|] eqn:Hc; [|by left].
  destruct (truthy (group_identifier c)) as [groupIdentifier|] eqn:Hid.
  2:{ left. split; [done|]. intros ? [= <-] ((g & Hg & Hne) & _).
      by rewrite Hg, (truthy_nonempty _ Hne) in Hid. }
  apply truthy_Some in Hid. unfold getLanguageTabButtons.
  destruct (tab_buttons c) as [|first rest] eqn:Hbuttons.
  { left. split; [done|]. by intros ? [= <-] (_ & Hsome & _). }
  set (defaultTabButton := default first (find button_is_active (first :: rest))).
  assert (defaultTabButton ∈ tab_buttons c) as Hin.
  { rewrite Hbuttons. unfold defaultTabButton.
    destruct (find button_is_active (first :: rest)) as [b|] eqn:Hfind; simpl.
    - by apply find_active_elem.
    - apply list_elem_of_here. }
  destruct (truthy (button_value defaultTabButton)) as [w|] eqn:Hw.
  2:{ left. split; [done|]. intros ? [= <-] (_ & _ & Hvalues).
      destruct (proj1 (Forall_forall _ _) Hvalues _ Hin) as (v & Hv & Hvne).
      by rewrite Hv, (truthy_nonempty _ Hvne) in Hw. }
  apply truthy_Some in Hw. right. exists groupIdentifier, w. split.
  - apply activateTabValueForGroup_plain.
    by apply (Forall_lookup_1 _ _ _ _ Hplain Hc).
  - intros ? [= <-] _. split; [done|]. by exists defaultTabButton.
Qed.

Lemma defaults_align (i j : nat) l :
  ∀ s c1 c2,
    plain_page (page s) →
    page s !! i = Some c1 → page s !! j = Some c2 →
    same_tabs c1 c2 →
    show_alike c1 c2 ∨ (i ∈ l ∧ takes_default c1) →
    ∃ s' c1' c2',
      for_each l activateDefaultTab s = Returned tt s' ∧
      page s' !! i = Some c1' ∧ page s' !! j = Some c2' ∧
      show_alike c1' c2'.
Proof.
  induction l as [|k l IH]; intros s c1 c2 Hplain H1 H2 Htabs Hstart.
  { destruct Hstart as [Halike|[Hin _]]; [|by apply elem_of_nil in Hin].
    by exists s, c1, c2. }
  simpl. unfold mbind, Script_bind.
  pose proof (same_frame_activateDefaultTab k s) as Hframe.
  destruct (activateDefaultTab_pass k s Hplain)
    as [[Hsame Hnot]|(value & w & Hpass & Hdefault)].
  - rewrite Hsame. apply (IH s c1 c2); try done.
    destruct Hstart as [Halike|[Hin Htakes]]; [by left|].
    right. split; [|done]. apply elem_of_cons in Hin as [->|Hin]; [|done].
    by destruct (Hnot c1 H1).
  - rewrite Hpass in *. simpl in Hframe.
    set (s1 := set_page _ s) in *.
    assert (page s1 !! i = Some (family_step value w c1)) as H1'
      by (simpl; by rewrite list_lookup_fmap, H1).
    assert (page s1 !! j = Some (family_step value w c2)) as H2'
      by (simpl; by rewrite list_lookup_fmap, H2).
    apply (IH s1 _ _ (same_frame_plain_page _ _ Hframe Hplain) H1' H2').
    + eapply same_tabs_same_markup; [apply same_markup_family_step..|done].
    + destruct Hstart as [Halike|[Hin Htakes]].
      * left. by apply family_step_keeps_alike.
      * apply elem_of_cons in Hin as [->|Hin].
        -- left. destruct (Hdefault c1 H1 Htakes) as [Hid Hw].
           by apply family_step_makes_alike.
        -- right. split; [done|].
           eapply same_markup_takes_default; [apply same_markup_family_step|done].
Qed.

(** X17: on a page of plain identifiers start-up leaves two groups of one family
    that have triggers for the same values, non-empty ones, showing the same
    value. *)
Theorem initialize_aligns_family (s : State) (i j : nat) (c1 c2 : Container) :
  plain_page (page s) →
  page s !! i = Some c1 → page s !! j = Some c2 →
  same_tabs c1 c2 →
  takes_default c1 →
  ∃ s' c1' c2' v,
    initializeLanguageTabs s = Returned tt s' ∧
    page s' !! i = Some c1' ∧ page s' !! j = Some c2' ∧
    value_present v c1' ∧ showing v c1' ∧ showing v c2'.
Proof.
  intros Hplain H1 H2 Htabs Htakes.
  unfold initializeLanguageTabs, mbind, Script_bind.
  destruct (defaults_align i j (seq 0 (length (getLanguageTabContainerElements s)))
              s c1 c2 Hplain H1 H2 Htabs)
    as (s1 & c1' & c2' & -> & H1' & H2' & v & Hv & Hshow1 & Hshow2).
  { right. split; [|done]. apply elem_of_seq. apply lookup_lt_Some in H1.
    unfold getLanguageTabContainerElements. lia. }
  exists (createLanguageTabsSyncToggle s1), c1', c2', v.
  by rewrite page_createLanguageTabsSyncToggle.
Qed.

Lemma initialize_aligns_family_witness :
  ∃ s' c1' c2' v,
    initializeLanguageTabs
      (load {| markup_containers := [unset_group; anonymous_python_group; lang_python_group];
               markup_right_buttons := None;
               markup_left_buttons := None;
               markup_selector_engine := strict_engine |})
    = Returned tt s' ∧
    page s' !! 0 = Some c1' ∧ page s' !! 2 = Some c2' ∧
    value_present v c1' ∧ showing v c1' ∧ showing v c2'.
Proof.
  apply (initialize_aligns_family _ 0 2 unset_group lang_python_group).
  - unfold plain_page. simpl.
    apply Forall_cons. split; [by intros ? [= <-]|].
    apply Forall_cons. split; [done|].
    apply Forall_cons. split; [by intros ? [= <-]|apply Forall_nil_2].
  - reflexivity.
  - reflexivity.
  - split; [done|]. intros v. rewrite !value_present_values. done.
  - split; [by exists "lang"|]. split; [done|]. simpl.
    apply Forall_cons. split; [by exists "rust"|].
    apply Forall_cons. split; [by exists "python"|apply Forall_nil_2].
Defined.
